(** * RuleGo: the string utilities, the engine configuration and the
    database client node

    A shallow embedding of [utils/str/str.go], [api/types/config.go] and
    the [dbClient] node ([components/action], as printed in the v0.14.0
    release notes), with the parts of the Go standard library they call.

    Go strings are byte sequences: they are [string]s here, one [ascii]
    per byte.  Go's [int] is taken to be 64 bits wide. *)

From Stdlib Require Import ZArith Ascii String List Lia.
From Stdlib Require Import DecimalString.
From Stdlib Require DecimalZ DecimalPos.
From stdpp Require Import base option list strings gmap.

Local Open Scope Z_scope.

(** ** Results of Go calls *)

(** A Go call either returns or panics. *)
Inductive Outcome (A : Type) : Type :=
| Ret (a : A)
| Panic (reason : string)
| OutOfFuel.                   (* a loop of the model did not reach its end *)
Arguments Ret {A} a.
Arguments Panic {A} reason.
Arguments OutOfFuel {A}.

(** The call [o] and then, if it returns, the rest [k]: a panic of [o]
    ends the caller as well. *)
Definition and_then {A B : Type} (o : Outcome A) (k : A -> Outcome B)
    : Outcome B :=
  match o with
  | Ret a => k a
  | Panic r => Panic r
  | OutOfFuel => OutOfFuel
  end.

(** A non-nil value of the interface [error]; the nil error is [None] of
    [option GoError]. *)
Inductive GoError : Type := Err (msg : string).

#[global] Instance GoError_eq_dec : EqDecision GoError.
Proof. solve_decision. Defined.

(** ** Byte strings *)

Definition byte (c : ascii) : Z := Z.of_N (Ascii.N_of_ascii c).

(** [s[n:]] and [s[:n]] for [n] within the string. *)
Fixpoint str_drop (n : nat) (s : string) : string :=
  match n, s with
  | O, _ => s
  | S n', String _ s' => str_drop n' s'
  | S _, EmptyString => EmptyString
  end.

Fixpoint str_take (n : nat) (s : string) : string :=
  match n, s with
  | O, _ => EmptyString
  | S n', String c s' => String c (str_take n' s')
  | S _, EmptyString => EmptyString
  end.

(** The number of bytes of [s] equal to [c]. *)
Fixpoint count_byte (c : ascii) (s : string) : nat :=
  match s with
  | EmptyString => O
  | String b s' => (if bool_decide (b = c) then 1 else 0) + count_byte c s'
  end.

(** ** Package unicode/utf8 *)
Module utf8.

Definition RuneError : Z := 0xFFFD.

(** The table [first]: what the first byte of a sequence announces. *)
Inductive firstInfo : Type :=
| as_                                  (* ASCII, one byte *)
| xx                                   (* invalid *)
| sq (size : nat) (lo hi : Z).         (* size, accepted range of byte 2 *)

Definition first (b : Z) : firstInfo :=
  if b <? 0x80 then as_
  else if b <? 0xC2 then xx
  else if b <? 0xE0 then sq 2 0x80 0xBF
  else if b =? 0xE0 then sq 3 0xA0 0xBF
  else if b <? 0xED then sq 3 0x80 0xBF
  else if b =? 0xED then sq 3 0x80 0x9F
  else if b <? 0xF0 then sq 3 0x80 0xBF
  else if b =? 0xF0 then sq 4 0x90 0xBF
  else if b <? 0xF4 then sq 4 0x80 0xBF
  else if b =? 0xF4 then sq 4 0x80 0x8F
  else xx.

Definition maskx : Z := 0x3F.
Definition mask2 : Z := 0x1F.
Definition mask3 : Z := 0x0F.
Definition mask4 : Z := 0x07.
Definition locb : Z := 0x80.
Definition hicb : Z := 0xBF.

Definition cont (b : Z) : Z := Z.land b maskx.

(** [DecodeRuneInString]: the first rune of [s] and its width in bytes. *)
Definition DecodeRuneInString (s : string) : Z * nat :=
  match s with
  | EmptyString => (RuneError, 0%nat)
  | String c0 t0 =>
    let s0 := byte c0 in
    match first s0 with
    | as_ => (s0, 1%nat)
    | xx => (RuneError, 1%nat)
    | sq sz lo hi =>
      if (String.length s <? sz)%nat then (RuneError, 1%nat) else
      match t0 with
      | EmptyString => (RuneError, 1%nat)
      | String c1 t1 =>
        let s1 := byte c1 in
        if (s1 <? lo) || (hi <? s1) then (RuneError, 1%nat)
        else if (sz <=? 2)%nat then
          (Z.lor (Z.shiftl (Z.land s0 mask2) 6) (cont s1), 2%nat)
        else
        match t1 with
        | EmptyString => (RuneError, 1%nat)
        | String c2 t2 =>
          let s2 := byte c2 in
          if (s2 <? locb) || (hicb <? s2) then (RuneError, 1%nat)
          else if (sz <=? 3)%nat then
            (Z.lor (Z.lor (Z.shiftl (Z.land s0 mask3) 12)
                          (Z.shiftl (cont s1) 6)) (cont s2), 3%nat)
          else
          match t2 with
          | EmptyString => (RuneError, 1%nat)
          | String c3 _ =>
            let s3 := byte c3 in
            if (s3 <? locb) || (hicb <? s3) then (RuneError, 1%nat)
            else
              (Z.lor (Z.lor (Z.lor (Z.shiftl (Z.land s0 mask4) 18)
                                   (Z.shiftl (cont s1) 12))
                            (Z.shiftl (cont s2) 6)) (cont s3), 4%nat)
          end
        end
      end
    end
  end.

(** [for _, r := range s]: the runes of [s] in order, each with the
    bytes it was decoded from.  Every step consumes at least one byte,
    so [length s] steps exhaust the string. *)
Fixpoint range_loop (fuel : nat) (s : string) : list (Z * string) :=
  match fuel with
  | O => []
  | S fuel' =>
    match s with
    | EmptyString => []
    | String _ _ =>
      let '(r, size) := DecodeRuneInString s in
      (r, str_take size s) :: range_loop fuel' (str_drop size s)
    end
  end.

Definition range (s : string) : list (Z * string) :=
  range_loop (String.length s) s.

Definition RuneCountInString (s : string) : nat := length (range s).

End utf8.

(** ** Package unicode *)
Module unicode.

Definition MaxLatin1 : Z := 0xFF.

(** [IsSpace]: the Latin-1 cases of the source, then the table
    [White_Space] above Latin-1. *)
Definition IsSpace (r : Z) : bool :=
  if r <=? MaxLatin1 then
    (r =? 0x09) || (r =? 0x0A) || (r =? 0x0B) || (r =? 0x0C) || (r =? 0x0D)
    || (r =? 0x20) || (r =? 0x85) || (r =? 0xA0)
  else
    (r =? 0x1680) || ((0x2000 <=? r) && (r <=? 0x200A))
    || (r =? 0x2028) || (r =? 0x2029) || (r =? 0x202F) || (r =? 0x205F)
    || (r =? 0x3000).

End unicode.

(** ** Package strings *)
Module strings.

(** [Index]: the byte offset of the first instance of [substr] in [s];
    [None] stands for Go's -1. *)
Fixpoint Index (s substr : string) : option nat :=
  if String.prefix substr s then Some O
  else match s with
       | EmptyString => None
       | String _ s' => S <$> Index s' substr
       end.

Definition Contains (s substr : string) : bool :=
  bool_decide (is_Some (Index s substr)).

(** [Count], for a non-empty [substr]: find, skip past the match, find
    again.  A match consumes at least one byte. *)
Fixpoint count_loop (fuel : nat) (s substr : string) : nat :=
  match fuel with
  | O => O
  | S fuel' =>
    match Index s substr with
    | None => O
    | Some i => S (count_loop fuel' (str_drop (i + String.length substr) s) substr)
    end
  end.

Definition Count (s substr : string) : nat :=
  match substr with
  | EmptyString => (utf8.RuneCountInString s + 1)%nat
  | String _ _ => count_loop (String.length s) s substr
  end.

(** The loop of [Replace] that applies [k] replacements; [start] of the
    source is the beginning of [s] here, [i_pos] says [i > 0]. *)
Fixpoint replace_loop (k : nat) (i_pos : bool) (s old new : string) : string :=
  match k with
  | O => s
  | S k' =>
    let j :=
      match old with
      | EmptyString =>
        Some (if i_pos then snd (utf8.DecodeRuneInString s) else O)
      | String _ _ => Index s old
      end in
    match j with
    | None => s
    | Some j =>
      str_take j s +:+ new +:+
        replace_loop k' true (str_drop (j + String.length old) s) old new
    end
  end.

(** [Replace(s, old, new, n)]; a negative [n] lifts the limit. *)
Definition Replace (s old new : string) (n : Z) : string :=
  if bool_decide (old = new) || (n =? 0) then s
  else
    let m := Count s old in
    if (m =? 0)%nat then s
    else
      let n' := if (n <? 0) || (Z.of_nat m <? n) then m else Z.to_nat n in
      replace_loop n' false s old new.

(** [Fields] splits around runs of white space as [unicode.IsSpace]
    sees it; [cur] is the field begun and not yet closed. *)
Fixpoint fields_loop (rs : list (Z * string)) (cur : option string) : list string :=
  match rs with
  | [] => match cur with Some f => [f] | None => [] end
  | (r, bytes) :: rs' =>
    if unicode.IsSpace r then
      match cur with
      | Some f => f :: fields_loop rs' None
      | None => fields_loop rs' None
      end
    else
      fields_loop rs' (Some (match cur with
                             | Some f => f +:+ bytes
                             | None => bytes
                             end))
  end.

Definition Fields (s : string) : list string :=
  fields_loop (utf8.range s) None.

End strings.


(** ** Machine integers *)

Definition MaxInt32 : Z := 2 ^ 31 - 1.

(** Conversion to [int] (and [int64]): the value modulo 2^64, read as a
    signed number. *)
Definition to_int (z : Z) : Z := (z + 2 ^ 63) mod 2 ^ 64 - 2 ^ 63.

(** ** Package strconv *)
Module strconv.

(** [FormatInt(i, 10)] and [FormatUint(i, 10)]: the decimal digits, with
    a minus sign before a negative number. *)
Definition FormatInt10 (i : Z) : string := NilZero.string_of_int (Z.to_int i).
Definition FormatUint10 (i : Z) : string := NilZero.string_of_int (Z.to_int i).

Definition Itoa (i : Z) : string := FormatInt10 i.

Definition FormatBool (b : bool) : string := if b then "true" else "false".

End strconv.

(** ** Values of type [interface{}] *)

(** What a call of a method without argument that yields a string does:
    it returns the string or it panics, as a method with a value
    receiver does when it is called through a nil pointer.  A method
    that does not return is not modelled. *)
Inductive MethodCall : Type :=
| Returns (s : string)
| Panics (reason : string).

Definition call (m : MethodCall) : Outcome string :=
  match m with
  | Returns s => Ret s
  | Panics reason => Panic reason
  end.

(** A value of any other dynamic type than the ones [ToString] names:
    what a call of its [String()] and of its [Error()] method does,
    where its type has them. *)
Record Object : Type := {
  obj_String : option MethodCall;
  obj_Error : option MethodCall;
}.

(** Floating-point numbers are carried as their IEEE-754 bits. *)
#[warnings="-register-all"]
Inductive GoValue : Type :=
| VNil                                   (* the nil interface *)
| VString (v : string)
| VBool (v : bool)
| VFloat64 (bits : Z)
| VFloat32 (bits : Z)
| VInt (v : Z)
| VUint (v : Z)
| VInt8 (v : Z)
| VUint8 (v : Z)
| VInt16 (v : Z)
| VUint16 (v : Z)
| VInt32 (v : Z)
| VUint32 (v : Z)
| VInt64 (v : Z)
| VUint64 (v : Z)
| VBytes (v : string)                    (* []byte *)
| VMap (m : gmap string GoValue)         (* map[string]interface{} *)
| VMaps (l : list (gmap string GoValue)) (* []map[string]interface{} *)
| VPointer (pointee : GoValue)           (* *interface{}, to a variable no longer written *)
| VObject (o : Object).

(** The library functions this development takes as given: float
    formatting, Unicode case mapping, JSON encoding (package
    [utils/json], taken to return for every value) and what [fmt] prints
    under [%s] or [%v] for a value that is neither a string, a byte
    slice, a number nor a boolean. *)
Class GoRuntime : Type := {
  float64_of_float32 : Z -> Z;
  FormatFloat : Z -> ascii -> Z -> Z -> string;
  ToUpper : string -> string;
  json_Marshal : GoValue -> GoError + string;
  fmt_composite : ascii -> GoValue -> string;
}.

(** ** Package fmt *)
Module fmt.
Section Fmt.
Context `{GoRuntime}.

(** The name of the dynamic type and the operand under [%v], for the
    types to which the verb [%s] does not apply. *)
Definition bad_verb_s (ty v : string) : string :=
  "%!s(" +:+ ty +:+ "=" +:+ v +:+ ")".

(** [Sprintf("%s", val)]. *)
Definition Sprintf_s (val : GoValue) : string :=
  match val with
  | VNil => "%!s(<nil>)"
  | VString v => v
  | VBytes v => v
  | VBool v => bad_verb_s "bool" (strconv.FormatBool v)
  | VFloat64 f => bad_verb_s "float64" (FormatFloat f "g" (-1) 64)
  | VFloat32 f => bad_verb_s "float32" (FormatFloat (float64_of_float32 f) "g" (-1) 32)
  | VInt v => bad_verb_s "int" (strconv.FormatInt10 v)
  | VUint v => bad_verb_s "uint" (strconv.FormatUint10 v)
  | VInt8 v => bad_verb_s "int8" (strconv.FormatInt10 v)
  | VUint8 v => bad_verb_s "uint8" (strconv.FormatUint10 v)
  | VInt16 v => bad_verb_s "int16" (strconv.FormatInt10 v)
  | VUint16 v => bad_verb_s "uint16" (strconv.FormatUint10 v)
  | VInt32 v => bad_verb_s "int32" (strconv.FormatInt10 v)
  | VUint32 v => bad_verb_s "uint32" (strconv.FormatUint10 v)
  | VInt64 v => bad_verb_s "int64" (strconv.FormatInt10 v)
  | VUint64 v => bad_verb_s "uint64" (strconv.FormatUint10 v)
  | VObject o =>
    (* [fmt] recovers from a panic of the method and prints a report *)
    match obj_Error o, obj_String o with
    | Some (Returns e), _ => e
    | None, Some (Returns s) => s
    | _, _ => fmt_composite "s" val
    end
  | VMap _ | VMaps _ | VPointer _ => fmt_composite "s" val
  end.

End Fmt.

(** [Sprintf("$%d", n)] for an [int]. *)
Definition Sprintf_dollar_d (n : Z) : string := "$" +:+ strconv.FormatInt10 n.

(** [Errorf("unsupported sql statement: %s", s)] for a string. *)
Definition Errorf_unsupported (s : string) : GoError :=
  Err ("unsupported sql statement: " +:+ s).

End fmt.

(** ** Iteration over a Go map *)

(** A [for k, v := range m] visits every entry once, in an order the
    language leaves open and that may change from one loop to the next.
    A [MapOrder] is the order one loop takes. *)
Definition MapOrder : Type := gmap string GoValue -> list (string * GoValue).

Definition valid_order (ord : MapOrder) : Prop :=
  forall m, ord m ≡ₚ map_to_list m.

(** ** Package utils/str *)
Module str.
Section Str.
Context `{GoRuntime}.

Definition varPatternLeft : string := "${".
Definition varPatternRight : string := "}".

Definition ProcessVar (pattern key : string) (val : GoValue) : string :=
  let varPattern := varPatternLeft +:+ key +:+ varPatternRight in
  strings.Replace pattern varPattern (fmt.Sprintf_s val) (-1).

(** [SprintfDict], its [range] taking the order [ord]. *)
Definition SprintfDict (ord : MapOrder) (pattern : string)
    (dict : gmap string GoValue) : string :=
  fold_left (fun result kv => ProcessVar result kv.1 kv.2) (ord dict) pattern.

(** [ToString].  The cases [fmt.Stringer] and [error] call a method of
    the value, and a panic of that call is a panic of [ToString]. *)
Definition ToString (input : GoValue) : Outcome string :=
  match input with
  | VNil => Ret ""
  | VString v => Ret v
  | VBool v => Ret (strconv.FormatBool v)
  | VFloat64 ft => Ret (FormatFloat ft "f" (-1) 64)
  | VFloat32 ft => Ret (FormatFloat (float64_of_float32 ft) "f" (-1) 32)
  | VInt v => Ret (strconv.Itoa v)
  | VUint v => Ret (strconv.Itoa (to_int v))
  | VInt8 v => Ret (strconv.Itoa (to_int v))
  | VUint8 v => Ret (strconv.Itoa (to_int v))
  | VInt16 v => Ret (strconv.Itoa (to_int v))
  | VUint16 v => Ret (strconv.Itoa (to_int v))
  | VInt32 v => Ret (strconv.Itoa (to_int v))
  | VUint32 v => Ret (strconv.Itoa (to_int v))
  | VInt64 v => Ret (strconv.FormatInt10 v)
  | VUint64 v => Ret (strconv.FormatUint10 v)
  | VBytes v => Ret v
  | VObject {| obj_String := Some String_method |} => call String_method
  | VObject {| obj_String := None; obj_Error := Some Error_method |} =>
    call Error_method
  | VObject _ | VMap _ | VMaps _ | VPointer _ =>
    match json_Marshal input with
    | inr newValue => Ret newValue
    | inl _ => Ret ""
    end
  end.

Definition CheckHasVar (s : string) : bool :=
  strings.Contains s "${" && strings.Contains s "}".

End Str.

(** The loop of [ConvertDollarPlaceholder]; [None] when [fuel]
    iterations did not reach its end. *)
Fixpoint convert_loop (fuel : nat) (sql : string) (n : Z) : option string :=
  match fuel with
  | O => None
  | S fuel' =>
    if strings.Contains sql "?" then
      convert_loop fuel' (strings.Replace sql "?" (fmt.Sprintf_dollar_d n) 1)
                   (to_int (n + 1))
    else Some sql
  end.

Definition ConvertDollarPlaceholder_fuel (fuel : nat) (sql dbType : string)
    : option string :=
  if bool_decide (dbType = "postgres") then convert_loop fuel sql 1
  else Some sql.

(** Every iteration removes one question mark, so one iteration more
    than the string has bytes is enough ([ConvertDollarPlaceholder_fuel_enough]
    below). *)
Definition ConvertDollarPlaceholder (sql dbType : string) : option string :=
  ConvertDollarPlaceholder_fuel (S (String.length sql)) sql dbType.

(** The string the loop builds, read off the input byte by byte: the
    counter is an [int] and wraps as one. *)
Fixpoint dollar_wrapping (sql : string) (n : Z) : string :=
  match sql with
  | EmptyString => EmptyString
  | String c sql' =>
    if bool_decide (c = "?"%char)
    then fmt.Sprintf_dollar_d n +:+ dollar_wrapping sql' (to_int (n + 1))
    else String c (dollar_wrapping sql' n)
  end.

(** The result as it is described: the question marks are numbered from
    left to right, starting at [i], and each becomes [$] and its number. *)
Fixpoint dollar_placeholders (sql : string) (i : Z) : string :=
  match sql with
  | EmptyString => EmptyString
  | String c sql' =>
    if bool_decide (c = "?"%char)
    then fmt.Sprintf_dollar_d i +:+ dollar_placeholders sql' (i + 1)
    else String c (dollar_placeholders sql' i)
  end.

Definition randomStrOptions : string :=
  "abcdefghijklmnopqrstuvwxyzABCDEFGHIJKLMNOPQRSTUVWXYZ0123456789".
Definition randomStrOptionsLen : Z := Z.of_nat (String.length randomStrOptions).

(** The loop of [RandomStr] with [n] iterations to go.  [rand_Intn k n]
    is what the [k]-th call of [rand.Intn] of this run returns when asked
    for a number below [n]; indexing [randomStrOptions] outside its
    bounds panics. *)
Fixpoint random_loop (rand_Intn : nat -> Z -> Z) (calls n : nat)
    (builder : string) : Outcome string :=
  match n with
  | O => Ret builder
  | S n' =>
    let k := rand_Intn calls randomStrOptionsLen in
    if (k <? 0) || (randomStrOptionsLen <=? k) then Panic "index out of range"
    else
      match String.get (Z.to_nat k) randomStrOptions with
      | Some c => random_loop rand_Intn (S calls) n' (builder +:+ String c "")
      | None => Panic "index out of range"
      end
  end.

Definition RandomStr (rand_Intn : nat -> Z -> Z) (num : Z) : Outcome string :=
  random_loop rand_Intn O (Z.to_nat num) "".

(** [string(c)] for a byte [c]: the UTF-8 encoding of the code point of
    that number, two bytes from 0x80 on. *)
Definition string_of_byte (c : ascii) : string :=
  let b := byte c in
  if b <? 0x80 then String c ""
  else String (Ascii.ascii_of_N (Z.to_N (Z.lor 0xC0 (Z.shiftr b 6))))
         (String (Ascii.ascii_of_N (Z.to_N (Z.lor 0x80 (Z.land b 0x3F)))) "").

(** The loop of [RemoveBraces] on what is left of [s] from index [i] on. *)
Fixpoint remove_loop (s result : string) : string :=
  match s with
  | EmptyString => result
  | String c s' =>
    let tail :=
      if bool_decide (c = "}"%char) then remove_loop s' result
      else if bool_decide (c = " "%char) then remove_loop s' result
      else remove_loop s' (result +:+ string_of_byte c) in
    if bool_decide (c = "$"%char) then
      match s' with
      | String c1 s'' =>
        if bool_decide (c1 = "{"%char) then remove_loop s'' result else tail
      | EmptyString => tail
      end
    else tail
  end.

Definition RemoveBraces (s : string) : string := remove_loop s "".

(** The dynamic types [ToStringMapString] tells apart.  A map with keys
    of type [interface{}] is given by its entries, in the order the
    [range] meets them. *)
Inductive MapInput : Type :=
| InMapStringString (v : gmap string string)
| InMapStringAny (v : gmap string GoValue)
| InMapAnyString (v : list (GoValue * string))
| InMapAnyAny (v : list (GoValue * GoValue))
| InString (v : string)
| InOther.

Section StrMap.
Context `{GoRuntime}.
(** The order a [range] over a [map[string]string] takes, and what
    [json.Unmarshal] (package [utils/json]) leaves in the empty map it
    is given; its error is dropped. *)
Variable ord_strings : gmap string string -> list (string * string).
Variable ord : MapOrder.
Variable json_Unmarshal : string -> gmap string GoValue.

(** [output[ToString(k)] = ToString(val)], once the iterations before
    have left [output]: the key is printed before the value. *)
Definition put (output : Outcome (gmap string GoValue)) (k val : GoValue)
    : Outcome (gmap string GoValue) :=
  and_then output (fun output =>
  and_then (ToString k) (fun key =>
  and_then (ToString val) (fun printed =>
  Ret (<[key := VString printed]> output)))).

Definition ToStringMapString (input : MapInput) : Outcome (gmap string GoValue) :=
  let output : Outcome (gmap string GoValue) := Ret ∅ in
  match input with
  | InMapStringString v =>
    fold_left (fun output kv => put output (VString kv.1) (VString kv.2))
              (ord_strings v) output
  | InMapStringAny v =>
    fold_left (fun output kv => put output (VString kv.1) kv.2)
              (ord v) output
  | InMapAnyString v =>
    fold_left (fun output kv => put output kv.1 (VString kv.2)) v output
  | InMapAnyAny v =>
    fold_left (fun output kv => put output kv.1 kv.2) v output
  | InString v => Ret (json_Unmarshal v)
  | InOther => output
  end.

End StrMap.

End str.

(** ** Package time *)
Module time.

(** A [Duration] is a number of nanoseconds. *)
Definition Nanosecond : Z := 1.
Definition Microsecond : Z := 1000 * Nanosecond.
Definition Millisecond : Z := 1000 * Microsecond.

Definition Milliseconds (d : Z) : Z := Z.quot d 1000000.

End time.

(** ** Package pool *)
Module pool.

(** Modelled from the spec: package [pool] is imported by [config.go]
    and its source is not part of what is verified here.  Of
    [WorkerPool] the configuration uses the field [MaxWorkersCount] and
    the method [Start] ("Pool lifecycle: started once at engine
    configuration time"). *)
Record WorkerPool : Type := {
  MaxWorkersCount : Z;
  started : bool;
}.

Definition Start (wp : WorkerPool) : WorkerPool :=
  {| MaxWorkersCount := MaxWorkersCount wp; started := true |}.

(** Modelled from the spec: the dispatcher itself.  "Configuration
    specifies a maximum number of concurrently executing tasks.
    Submission either starts a new concurrent task immediately (while
    under the cap) or queues until capacity frees."  Tasks are named by
    numbers; the pool is seen at the instants a task is submitted or
    completes, the two events that change what runs. *)
Record State : Type := {
  running : list nat;
  queued : list nat;
}.

Inductive Event : Type :=
| Submit (task : nat)
| Complete (task : nat).

Definition init : State := {| running := []; queued := [] |}.

(** A completion frees capacity, which the longest-queued task takes. *)
Definition step (wp : WorkerPool) (s : State) (e : Event) : State :=
  match e with
  | Submit t =>
    if Z.of_nat (length (running s)) <? MaxWorkersCount wp
    then {| running := running s ++ [t]; queued := queued s |}
    else {| running := running s; queued := queued s ++ [t] |}
  | Complete t =>
    if bool_decide (t ∈ running s) then
      let r := filter (fun u => u ≠ t) (running s) in
      match queued s with
      | q :: qs => {| running := r ++ [q]; queued := qs |}
      | [] => {| running := r; queued := [] |}
      end
    else s
  end.

Definition run (wp : WorkerPool) (es : list Event) (s : State) : State :=
  fold_left (step wp) es s.

End pool.

(** ** Package api/types: the engine configuration *)
Module types.

(** Modelled from the spec: [RuleMsg] is declared in a file of package
    [types] whose source is not part of what is verified here.  "Message: identifier, type tag, a
    mutable key/value metadata store (string keys, unique, values may be
    empty; order irrelevant), and a data payload". *)
Record RuleMsg : Type := {
  Id : string;
  MsgType : string;
  Metadata : gmap string GoValue;
  Data : string;
}.

Definition PutValue (key value : string) (msg : RuleMsg) : RuleMsg :=
  {| Id := Id msg; MsgType := MsgType msg;
     Metadata := <[key := VString value]> (Metadata msg); Data := Data msg |}.

Definition set_Data (data : string) (msg : RuleMsg) : RuleMsg :=
  {| Id := Id msg; MsgType := MsgType msg;
     Metadata := Metadata msg; Data := data |}.

Section Config.
(** The callbacks and the interfaces [Pool], [ComponentRegistry],
    [Parser] and [Logger] are declared outside [config.go]; the interface
    types carry the suffix [I] here.  A pool is either a
    [pool.WorkerPool] or some other implementation. *)
Variables DebugFunc EndFunc OtherPool ComponentRegistry ParserI LoggerI : Type.
Variable DefaultLogger : LoggerI.

Inductive PoolI : Type :=
| WorkerPoolRef (wp : pool.WorkerPool)
| OtherPoolRef (p : OtherPool).

(** A nil function or interface value is [None]. *)
Record Config : Type := {
  OnDebug : option DebugFunc;
  OnEnd : option EndFunc;
  JsMaxExecutionTime : Z;
  Pool : option PoolI;
  ComponentsRegistry : option ComponentRegistry;
  Parser : option ParserI;
  Logger : option LoggerI;
}.

(** An [Option] writes through the pointer it is given and returns an
    error. *)
Definition Option : Type := Config -> Config * option GoError.

Definition NewConfig (opts : list Option) : Config :=
  let c := {| OnDebug := None; OnEnd := None;
              JsMaxExecutionTime := time.Millisecond * 2000;
              Pool := None; ComponentsRegistry := None; Parser := None;
              Logger := Some DefaultLogger |} in
  fold_left (fun c opt => fst (opt c)) opts c.

Definition DefaultPool : PoolI :=
  let wp := {| pool.MaxWorkersCount := MaxInt32; pool.started := false |} in
  let wp := pool.Start wp in
  WorkerPoolRef wp.

Definition WithComponentsRegistry (componentsRegistry : option ComponentRegistry) : Option :=
  fun c =>
    ({| OnDebug := OnDebug c; OnEnd := OnEnd c;
        JsMaxExecutionTime := JsMaxExecutionTime c; Pool := Pool c;
        ComponentsRegistry := componentsRegistry; Parser := Parser c;
        Logger := Logger c |}, None).

Definition WithOnDebug (onDebug : option DebugFunc) : Option :=
  fun c =>
    ({| OnDebug := onDebug; OnEnd := OnEnd c;
        JsMaxExecutionTime := JsMaxExecutionTime c; Pool := Pool c;
        ComponentsRegistry := ComponentsRegistry c; Parser := Parser c;
        Logger := Logger c |}, None).

Definition WithOnEnd (onEnd : option EndFunc) : Option :=
  fun c =>
    ({| OnDebug := OnDebug c; OnEnd := onEnd;
        JsMaxExecutionTime := JsMaxExecutionTime c; Pool := Pool c;
        ComponentsRegistry := ComponentsRegistry c; Parser := Parser c;
        Logger := Logger c |}, None).

Definition WithPool (pool : option PoolI) : Option :=
  fun c =>
    ({| OnDebug := OnDebug c; OnEnd := OnEnd c;
        JsMaxExecutionTime := JsMaxExecutionTime c; Pool := pool;
        ComponentsRegistry := ComponentsRegistry c; Parser := Parser c;
        Logger := Logger c |}, None).

Definition WithDefaultPool : Option :=
  fun c =>
    let wp := {| pool.MaxWorkersCount := MaxInt32; pool.started := false |} in
    let wp := pool.Start wp in
    ({| OnDebug := OnDebug c; OnEnd := OnEnd c;
        JsMaxExecutionTime := JsMaxExecutionTime c;
        Pool := Some (WorkerPoolRef wp);
        ComponentsRegistry := ComponentsRegistry c; Parser := Parser c;
        Logger := Logger c |}, None).

Definition WithJsMaxExecutionTime (jsMaxExecutionTime : Z) : Option :=
  fun c =>
    ({| OnDebug := OnDebug c; OnEnd := OnEnd c;
        JsMaxExecutionTime := jsMaxExecutionTime; Pool := Pool c;
        ComponentsRegistry := ComponentsRegistry c; Parser := Parser c;
        Logger := Logger c |}, None).

Definition WithParser (parser : option ParserI) : Option :=
  fun c =>
    ({| OnDebug := OnDebug c; OnEnd := OnEnd c;
        JsMaxExecutionTime := JsMaxExecutionTime c; Pool := Pool c;
        ComponentsRegistry := ComponentsRegistry c; Parser := parser;
        Logger := Logger c |}, None).

Definition WithLogger (logger : option LoggerI) : Option :=
  fun c =>
    ({| OnDebug := OnDebug c; OnEnd := OnEnd c;
        JsMaxExecutionTime := JsMaxExecutionTime c; Pool := Pool c;
        ComponentsRegistry := ComponentsRegistry c; Parser := Parser c;
        Logger := logger |}, None).

(** The concurrency cap of the pool a configuration holds, if it holds
    a [pool.WorkerPool]. *)
Definition pool_cap (c : Config) : option Z :=
  match Pool c with
  | Some (WorkerPoolRef wp) => Some (pool.MaxWorkersCount wp)
  | _ => None
  end.

(** The fields of [Config], and the options of this file by the field
    they assign. *)
Inductive Field : Type :=
| FOnDebug | FOnEnd | FJsMaxExecutionTime | FPool | FComponentsRegistry
| FParser | FLogger.

Inductive assigns : Field -> Option -> Prop :=
| assigns_ComponentsRegistry r : assigns FComponentsRegistry (WithComponentsRegistry r)
| assigns_OnDebug f : assigns FOnDebug (WithOnDebug f)
| assigns_OnEnd f : assigns FOnEnd (WithOnEnd f)
| assigns_Pool p : assigns FPool (WithPool p)
| assigns_DefaultPool : assigns FPool WithDefaultPool
| assigns_JsMaxExecutionTime d : assigns FJsMaxExecutionTime (WithJsMaxExecutionTime d)
| assigns_Parser r : assigns FParser (WithParser r)
| assigns_Logger l : assigns FLogger (WithLogger l).

(** The field [f] holds the same in [c'] as in [c]. *)
Definition same_field (f : Field) (c c' : Config) : Prop :=
  match f with
  | FOnDebug => OnDebug c' = OnDebug c
  | FOnEnd => OnEnd c' = OnEnd c
  | FJsMaxExecutionTime => JsMaxExecutionTime c' = JsMaxExecutionTime c
  | FPool => Pool c' = Pool c
  | FComponentsRegistry => ComponentsRegistry c' = ComponentsRegistry c
  | FParser => Parser c' = Parser c
  | FLogger => Logger c' = Logger c
  end.

(** Every option of the list is one of this file's options, and none
    assigns the field [f]. *)
Definition none_assigns (f : Field) (opts : list Option) : Prop :=
  Forall (fun opt => exists f', assigns f' opt /\ f' <> f) opts.

End Config.

Arguments WorkerPoolRef {OtherPool} wp.
Arguments OtherPoolRef {OtherPool} p.
Arguments OnDebug {_ _ _ _ _ _} c.
Arguments OnEnd {_ _ _ _ _ _} c.
Arguments JsMaxExecutionTime {_ _ _ _ _ _} c.
Arguments Pool {_ _ _ _ _ _} c.
Arguments ComponentsRegistry {_ _ _ _ _ _} c.
Arguments Parser {_ _ _ _ _ _} c.
Arguments Logger {_ _ _ _ _ _} c.
Arguments NewConfig {_ _ _ _ _ _} DefaultLogger opts.
Arguments DefaultPool {OtherPool}.
Arguments WithDefaultPool {_ _ _ _ _ _}.
Arguments WithPool {_ _ _ _ _ _} pool.
Arguments WithJsMaxExecutionTime {_ _ _ _ _ _} jsMaxExecutionTime.
Arguments pool_cap {_ _ _ _ _ _} c.
Arguments WithComponentsRegistry {_ _ _ _ _ _} componentsRegistry.
Arguments WithOnDebug {_ _ _ _ _ _} onDebug.
Arguments WithOnEnd {_ _ _ _ _ _} onEnd.
Arguments WithParser {_ _ _ _ _ _} parser.
Arguments WithLogger {_ _ _ _ _ _} logger.
Arguments assigns {_ _ _ _ _ _} f opt.
Arguments none_assigns {_ _ _ _ _ _} f opts.
Arguments same_field {_ _ _ _ _ _} f c c'.

End types.

(** ** Package database/sql, as the node uses it *)
Module sql.

(** The result of a statement: what [RowsAffected()] and
    [LastInsertId()] return, a number and an error each. *)
Record Result : Type := {
  RowsAffected : Z * option GoError;
  LastInsertId : Z * option GoError;
}.

(** The rows of a query: what [Columns()] returns, what each successive
    [Next()] and [Scan] delivers (one value per column, or the error of
    [Scan]), and what [Err()] returns once [Next()] has returned false. *)
Record Rows : Type := {
  Columns : GoError + list string;
  scans : list (GoError + list GoValue);
  Rows_Err : option GoError;
}.

(** An open database handle: how the database answers the call made. *)
Record DB : Type := {
  Query : string -> list GoValue -> GoError + Rows;
  Exec : string -> list GoValue -> GoError + Result;
  Ping : option GoError;
}.

End sql.

(** ** Package components/action: the database client node *)
Module action.

Import types.

Definition SELECT : string := "SELECT".
Definition INSERT : string := "INSERT".
Definition DELETE : string := "DELETE".
Definition UPDATE : string := "UPDATE".

Definition rowsAffectedKey : string := "rowsAffected".
Definition lastInsertIdKey : string := "lastInsertId".

Record DbClientNodeConfiguration : Type := {
  Sql : string;
  Params : list GoValue;
  GetOne : bool;
  PoolSize : Z;
  DbType : string;
  Dsn : string;
}.

Record DbClientNode : Type := {
  config : DbClientNodeConfiguration;
  db : option sql.DB;
  opType : string;
  paramsHasVar : bool;
}.

(** [&DbClientNode{}] *)
Definition New : DbClientNode :=
  {| config := {| Sql := ""; Params := []; GetOne := false; PoolSize := 0;
                  DbType := ""; Dsn := "" |};
     db := None; opType := ""; paramsHasVar := false |}.

Definition set_DbType (dbType : string) (c : DbClientNodeConfiguration)
    : DbClientNodeConfiguration :=
  {| Sql := Sql c; Params := Params c; GetOne := GetOne c;
     PoolSize := PoolSize c; DbType := dbType; Dsn := Dsn c |}.

Definition set_paramsHasVar (b : bool) (x : DbClientNode) : DbClientNode :=
  {| config := config x; db := db x; opType := opType x; paramsHasVar := b |}.

Definition set_Sql (s : string) (c : DbClientNodeConfiguration)
    : DbClientNodeConfiguration :=
  {| Sql := s; Params := Params c; GetOne := GetOne c;
     PoolSize := PoolSize c; DbType := DbType c; Dsn := Dsn c |}.

(** What the node calls on its context. *)
Inductive CtxCall : Type :=
| TellSuccess (msg : RuleMsg)
| TellFailure (msg : RuleMsg) (err : option GoError)
| TellNext (msg : RuleMsg) (relationTypes : list string).

(** The contract of a node's [OnMsg]: one call and a nil error, or no
    call and a non-nil error. *)
Definition one_call_or_error (r : Outcome (list CtxCall * option GoError)) : Prop :=
  match r with
  | Ret (calls, err) =>
    (length calls = 1%nat /\ err = None) \/ (calls = [] /\ err <> None)
  | _ => False
  end.

(** The configuration [Init] goes on with once the bag is decoded. *)
Definition defaulted (cfg : DbClientNodeConfiguration) : DbClientNodeConfiguration :=
  if bool_decide (DbType cfg = "") then set_DbType "mysql" cfg else cfg.

Definition nil_db : string := "invalid memory address or nil pointer dereference".
Definition index_out_of_range : string := "index out of range [0] with length 0".

(** A method call on [x.db], which panics on the nil handle. *)
Definition on_db {A : Type} (x : DbClientNode) (k : sql.DB -> A) : Outcome A :=
  match db x with
  | Some d => Ret (k d)
  | None => Panic nil_db
  end.

(** [row[columns[i]] = &v], for [i] in order: the variable each column
    name ends up pointing to. *)
Definition row_of (columns : list string) : gmap string nat :=
  fold_left (fun row ic => <[ic.2 := ic.1]> row) (imap pair columns) ∅.

(** The loop [for rows.Next()] of [query].  [values] holds what the
    variables scanned into contain; a row of the result maps a column
    to a string copied out of a byte slice ([inl]) or to the pointer to
    the column's variable ([inr]). *)
Fixpoint scan_loop (row : gmap string nat)
    (scans : list (GoError + list GoValue)) (values : list GoValue)
    (result : list (gmap string (string + nat)))
    : GoError + (list GoValue * list (gmap string (string + nat))) :=
  match scans with
  | [] => inr (values, result)
  | inl err :: _ => inl err
  | inr scanned :: scans' =>
    let values := scanned in
    let m := (fun i : nat =>
                match values !! i with
                | Some (VBytes b) => inl b
                | _ => inr i
                end) <$> row in
    scan_loop row scans' values (result ++ [m])
  end.

(** The rows as they are read after [query] has returned: a pointer
    shows what its variable held last. *)
Definition read_row (values : list GoValue) (m : gmap string (string + nat))
    : gmap string GoValue :=
  (fun e : string + nat =>
     match e with
     | inl s => VString s
     | inr i => VPointer (default VNil (values !! i))
     end) <$> m.

Section Node.
Context `{GoRuntime}.

(** [maps.Map2Struct] decodes the bag into the record it is given and
    [sql.Open] opens a handle; both are taken as given. *)
Variable Map2Struct :
  gmap string GoValue -> DbClientNodeConfiguration ->
  DbClientNodeConfiguration * option GoError.
Variable sql_Open : string -> string -> GoError + sql.DB.

Definition supported (opType : string) : bool :=
  bool_decide (opType = SELECT) || bool_decide (opType = UPDATE)
  || bool_decide (opType = INSERT) || bool_decide (opType = DELETE).

Definition has_var (item : GoValue) : bool :=
  match item with
  | VString v => str.CheckHasVar v
  | _ => false
  end.

(** [Init] writes the node through its pointer: the node is returned
    as [Init] leaves it, also when it panics. *)
Definition Init (x : DbClientNode) (configuration : gmap string GoValue)
    : DbClientNode * Outcome (option GoError) :=
  let '(cfg, err) := Map2Struct configuration (config x) in
  match err with
  | Some e =>
    ({| config := cfg; db := db x; opType := opType x;
        paramsHasVar := paramsHasVar x |}, Ret (Some e))
  | None =>
    let cfg := if bool_decide (DbType cfg = "") then set_DbType "mysql" cfg
               else cfg in
    match sql_Open (DbType cfg) (Dsn cfg) with
    | inl e =>
      ({| config := cfg; db := None; opType := opType x;
          paramsHasVar := paramsHasVar x |}, Ret (Some e))
    | inr d =>
      (* SetMaxOpenConns and SetMaxIdleConns return nothing *)
      let err := sql.Ping d in
      let words := strings.Fields (Sql cfg) in
      match words with
      | [] =>
        ({| config := cfg; db := Some d; opType := opType x;
            paramsHasVar := paramsHasVar x |}, Panic index_out_of_range)
      | word0 :: _ =>
        let opType := ToUpper word0 in
        let err := if supported opType then err
                   else Some (fmt.Errorf_unsupported (Sql cfg)) in
        let paramsHasVar := paramsHasVar x || existsb has_var (Params cfg) in
        match str.ConvertDollarPlaceholder (Sql cfg) (DbType cfg) with
        | Some sql' =>
          ({| config := set_Sql sql' cfg; db := Some d; opType := opType;
              paramsHasVar := paramsHasVar |}, Ret err)
        | None =>
          ({| config := cfg; db := Some d; opType := opType;
              paramsHasVar := paramsHasVar |}, OutOfFuel)
        end
      end
    end
  end.

Definition query (x : DbClientNode) (sqlStr : string) (params : list GoValue)
    (getOne : bool) : Outcome (GoValue * option GoError) :=
  on_db x (fun d =>
    match sql.Query d sqlStr params with
    | inl err => (VNil, Some err)
    | inr rows =>
      match sql.Columns rows with
      | inl err => (VNil, Some err)
      | inr columns =>
        let row := row_of columns in
        let values := replicate (length columns) VNil in
        match scan_loop row (sql.scans rows) values [] with
        | inl err => (VNil, Some err)
        | inr (values, result) =>
          match sql.Rows_Err rows with
          | Some err => (VNil, Some err)
          | None =>
            let result := read_row values <$> result in
            if getOne then
              match result with
              | m :: _ => (VMap m, None)
              | [] => (VNil, None)
              end
            else (VMaps result, None)
          end
        end
      end
    end).

Definition update (x : DbClientNode) (sqlStr : string) (params : list GoValue)
    : Outcome (Z * option GoError) :=
  on_db x (fun d =>
    match sql.Exec d sqlStr params with
    | inl err => (0, Some err)
    | inr result =>
      match sql.RowsAffected result with
      | (_, Some err) => (0, Some err)
      | (rowsAffected, None) => (rowsAffected, None)
      end
    end).

Definition insert (x : DbClientNode) (sqlStr : string) (params : list GoValue)
    : Outcome (Z * Z * option GoError) :=
  on_db x (fun d =>
    match sql.Exec d sqlStr params with
    | inl err => (0, 0, Some err)
    | inr result =>
      match sql.RowsAffected result with
      | (_, Some err) => (0, 0, Some err)
      | (rowsAffected, None) =>
        let lastInsertId := fst (sql.LastInsertId result) in
        (rowsAffected, lastInsertId, None)
      end
    end).

Definition delete (x : DbClientNode) (sqlStr : string) (params : list GoValue)
    : Outcome (Z * option GoError) :=
  on_db x (fun d =>
    match sql.Exec d sqlStr params with
    | inl err => (0, Some err)
    | inr result =>
      match sql.RowsAffected result with
      | (_, Some err) => (0, Some err)
      | (rowsAffected, None) => (rowsAffected, None)
      end
    end).

(** The operation [OnMsg] runs, by [opType]: [data], [rowsAffected],
    [lastInsertId] and [err] after the first [switch]. *)
Definition run_op (x : DbClientNode) (sqlStr : string) (params : list GoValue)
    : Outcome (GoValue * Z * Z * option GoError) :=
  if bool_decide (opType x = SELECT) then
    match query x sqlStr params (GetOne (config x)) with
    | Ret (data, err) => Ret (data, 0, 0, err)
    | Panic r => Panic r
    | OutOfFuel => OutOfFuel
    end
  else if bool_decide (opType x = UPDATE) then
    match update x sqlStr params with
    | Ret (rowsAffected, err) => Ret (VNil, rowsAffected, 0, err)
    | Panic r => Panic r
    | OutOfFuel => OutOfFuel
    end
  else if bool_decide (opType x = INSERT) then
    match insert x sqlStr params with
    | Ret (rowsAffected, lastInsertId, err) =>
      Ret (VNil, rowsAffected, lastInsertId, err)
    | Panic r => Panic r
    | OutOfFuel => OutOfFuel
    end
  else if bool_decide (opType x = DELETE) then
    match delete x sqlStr params with
    | Ret (rowsAffected, err) => Ret (VNil, rowsAffected, 0, err)
    | Panic r => Panic r
    | OutOfFuel => OutOfFuel
    end
  else Ret (VNil, 0, 0, Some (fmt.Errorf_unsupported sqlStr)).

(** [OnMsg]: the calls made on [ctx], in order, and the error returned.
    [ords 0] is the order the [range] of the first [SprintfDict] takes,
    [ords (S i)] the one taken for the parameter at index [i]. *)
Definition OnMsg (ords : nat -> MapOrder) (x : DbClientNode) (msg : RuleMsg)
    : Outcome (list CtxCall * option GoError) :=
  let sqlStr := str.SprintfDict (ords O) (Sql (config x)) (Metadata msg) in
  let params :=
    if paramsHasVar x then
      imap (fun i item =>
              match item with
              | VString v => VString (str.SprintfDict (ords (S i)) v (Metadata msg))
              | _ => item
              end) (Params (config x))
    else Params (config x) in
  match run_op x sqlStr params with
  | Panic r => Panic r
  | OutOfFuel => OutOfFuel
  | Ret (data, rowsAffected, lastInsertId, err) =>
    match err with
    | Some e => Ret ([TellFailure msg err], err)
    | None =>
      let msg :=
        if bool_decide (opType x = SELECT) then
          and_then (str.ToString data) (fun printed =>
          Ret (set_Data printed msg))
        else if bool_decide (opType x = UPDATE) || bool_decide (opType x = DELETE) then
          and_then (str.ToString (VInt64 rowsAffected)) (fun affected =>
          Ret (PutValue rowsAffectedKey affected msg))
        else if bool_decide (opType x = INSERT) then
          and_then (str.ToString (VInt64 rowsAffected)) (fun affected =>
          and_then (str.ToString (VInt64 lastInsertId)) (fun inserted =>
          Ret (PutValue lastInsertIdKey inserted
                 (PutValue rowsAffectedKey affected msg))))
        else Ret msg in
      and_then msg (fun msg => Ret ([TellSuccess msg], err))
    end
  end.

(** The statement and the parameters [OnMsg] hands to the database:
    [sqlStr] and [params] of the source. *)
Definition sent_sql (ords : nat -> MapOrder) (x : DbClientNode) (msg : RuleMsg)
    : string :=
  str.SprintfDict (ords O) (Sql (config x)) (Metadata msg).

Definition sent_params (ords : nat -> MapOrder) (x : DbClientNode) (msg : RuleMsg)
    : list GoValue :=
  if paramsHasVar x then
    imap (fun i item =>
            match item with
            | VString v => VString (str.SprintfDict (ords (S i)) v (Metadata msg))
            | _ => item
            end) (Params (config x))
  else Params (config x).

End Node.

(** Whether a value is a byte slice. *)
Definition is_bytes (v : GoValue) : bool :=
  match v with VBytes _ => true | _ => false end.

End action.

(** ** The engine: execution context and dispatch *)
Module engine.

Import types.

(** Modelled from the spec: the engine (compiled chain, execution
    context, dispatch) is not part of the sources verified here; this
    follows section 4.3 of the specification, steps 1 to 5, and its
    error policy.  A node either tells a relation, passing on a message
    and the error recorded, or returns an error without telling any. *)
Inductive NodeResult : Type :=
| Told (relation : string) (msg : RuleMsg) (err : option GoError)
| Errored (err : GoError).

Definition Success : string := "Success".
Definition Failure : string := "Failure".

(** [TellSuccess(msg)], [TellFailure(msg, err)] and [TellNext(msg, relation)]. *)
Definition tellSuccess (msg : RuleMsg) : NodeResult := Told Success msg None.
Definition tellFailure (msg : RuleMsg) (err : GoError) : NodeResult :=
  Told Failure msg (Some err).
Definition tellNext (msg : RuleMsg) (relation : string) : NodeResult :=
  Told relation msg None.

(** "Compiled Chain: node id -> node instance; node id -> relation ->
    ordered set of target node ids; a designated root id". *)
Record CompiledChain : Type := {
  nodes : gmap string (RuleMsg -> NodeResult);
  adjacency : gmap string (gmap string (list string));
  root : string;
}.

Definition targets (c : CompiledChain) (nodeId relation : string) : list string :=
  default [] (adjacency c !! nodeId ≫= fun rels => rels !! relation).

(** What a traversal lets the outside see. *)
Inductive Event : Type :=
| DebugBefore (relation nodeId : string) (msg : RuleMsg)
| DebugAfter (relation nodeId : string) (msg : RuleMsg) (err : option GoError)
| OnEndCalled (msg : RuleMsg) (err : option GoError)
| Logged (nodeId : string) (err : GoError).

(** The invocations of the end-of-message callback among the events. *)
Definition OnEnd_call (e : Event) : option (RuleMsg * option GoError) :=
  match e with OnEndCalled msg err => Some (msg, err) | _ => None end.

Definition OnEnd_calls (evs : list Event) : list (RuleMsg * option GoError) :=
  omap OnEnd_call evs.

(** What the callback receives at a leaf. *)
Definition at_leaf (leaf : string * RuleMsg * option GoError)
    : RuleMsg * option GoError :=
  (leaf.1.2, leaf.2).

Section Dispatch.
(** Whether a debug hook is configured. *)
Variable debug : bool.
(** Step 4 has every relation without targets end in the callback; the
    error policy has a [TellFailure] without a "Failure" edge end the
    path silently.  [silent_failure] says which of the two holds. *)
Variable silent_failure : bool.

Definition silent (relation : string) : bool :=
  silent_failure && bool_decide (relation = Failure).

(** The events of dispatching [msg] to [nodeId], reached along
    [relation]; sibling branches run concurrently, the list gives them
    branch after branch.  [None] when the traversal is deeper than
    [fuel]. *)
Fixpoint dispatch (fuel : nat) (c : CompiledChain) (relation nodeId : string)
    (msg : RuleMsg) : option (list Event) :=
  match fuel with
  | O => None
  | S fuel' =>
    match nodes c !! nodeId with
    | None => Some []
    | Some onMsg =>
      let before := if debug then [DebugBefore relation nodeId msg] else [] in
      match onMsg msg with
      | Errored e => Some (before ++ [Logged nodeId e])
      | Told rel msg' err =>
        match targets c nodeId rel with
        | [] =>
          if silent rel then Some before
          else Some (before
                     ++ (if debug then [DebugAfter rel nodeId msg' err] else [])
                     ++ [OnEndCalled msg' err])
        | ts =>
          evs ← mapM (fun t => dispatch fuel' c rel t msg') ts;
          Some (before ++ concat evs)
        end
      end
    end
  end.

(** The terminal leaves a traversal reaches: the node, and the message
    and error it told along a relation that has no target (a path ended
    silently is not among them). *)
Fixpoint leaves (fuel : nat) (c : CompiledChain) (nodeId : string)
    (msg : RuleMsg) : option (list (string * RuleMsg * option GoError)) :=
  match fuel with
  | O => None
  | S fuel' =>
    match nodes c !! nodeId with
    | None => Some []
    | Some onMsg =>
      match onMsg msg with
      | Errored _ => Some []
      | Told rel msg' err =>
        match targets c nodeId rel with
        | [] => if silent rel then Some [] else Some [(nodeId, msg', err)]
        | ts =>
          lvs ← mapM (fun t => leaves fuel' c t msg') ts;
          Some (concat lvs)
        end
      end
    end
  end.

(** The same as a relation: [reaches c nodeId msg leaf] when the
    traversal of [msg] from [nodeId] follows the relations told, edge by
    edge, down to [leaf]. *)
Inductive reaches (c : CompiledChain)
    : string -> RuleMsg -> string * RuleMsg * option GoError -> Prop :=
| reaches_here nodeId msg onMsg rel msg' err :
    nodes c !! nodeId = Some onMsg ->
    onMsg msg = Told rel msg' err ->
    targets c nodeId rel = [] ->
    silent rel = false ->
    reaches c nodeId msg (nodeId, msg', err)
| reaches_below nodeId msg onMsg rel msg' err t leaf :
    nodes c !! nodeId = Some onMsg ->
    onMsg msg = Told rel msg' err ->
    t ∈ targets c nodeId rel ->
    reaches c t msg' leaf ->
    reaches c nodeId msg leaf.

(** Invoking a chain on a message starts at its root. *)
Definition OnMsg (fuel : nat) (c : CompiledChain) (msg : RuleMsg)
    : option (list Event) :=
  dispatch fuel c "" (root c) msg.

End Dispatch.

(** The chain A -> {B, C}, both edges on "Success". *)
Definition fan_out (a b c : RuleMsg -> NodeResult) : CompiledChain :=
  {| nodes := <["A" := a]> (<["B" := b]> (<["C" := c]> ∅));
     adjacency := {["A" := {[Success := ["B"; "C"]]}]};
     root := "A" |}.

End engine.

(** ** A concrete setting for the closed examples *)
Module example.

Import action.

(** [strings.ToUpper] on a string of ASCII bytes. *)
Definition upper_byte (c : ascii) : ascii :=
  let b := byte c in
  if (97 <=? b) && (b <=? 122) then Ascii.ascii_of_N (Z.to_N (b - 32)) else c.

Fixpoint upper (s : string) : string :=
  match s with
  | EmptyString => EmptyString
  | String c s' => String (upper_byte c) (upper s')
  end.

(** The examples hold strings and integers only: no float is formatted
    and nothing is encoded as JSON. *)
#[export] Instance runtime : GoRuntime := {|
  float64_of_float32 bits := bits;
  FormatFloat _ _ _ _ := "";
  ToUpper := upper;
  json_Marshal _ := inl (Err "json: unsupported");
  fmt_composite _ _ := "";
|}.

(** A decoder that reads the string fields "sql", "dbType" and "dsn" of
    the bag and leaves a field without entry as it is. *)
Definition field (bag : gmap string GoValue) (key old : string) : string :=
  match bag !! key with
  | Some (VString s) => s
  | _ => old
  end.

Definition Map2Struct (bag : gmap string GoValue) (c : DbClientNodeConfiguration)
    : DbClientNodeConfiguration * option GoError :=
  ({| Sql := field bag "sql" (Sql c); Params := Params c; GetOne := GetOne c;
      PoolSize := PoolSize c; DbType := field bag "dbType" (DbType c);
      Dsn := field bag "dsn" (Dsn c) |}, None).

(** A database that answers the ping and fails every statement. *)
Definition refused : GoError := Err "Error 1146 (42S02): Table 'test.users' doesn't exist".

Definition down : sql.DB :=
  {| sql.Query _ _ := inl refused; sql.Exec _ _ := inl refused;
     sql.Ping := None |}.

Definition sql_Open (driverName dataSourceName : string) : GoError + sql.DB :=
  inr down.

Definition select_bag : gmap string GoValue :=
  {["sql" := VString "select * from users"]}.

Definition blank_bag : gmap string GoValue :=
  {["sql" := VString "   "]}.

Definition hello : types.RuleMsg :=
  {| types.Id := "1"; types.MsgType := "TEST_MSG_TYPE_AA";
     types.Metadata := ∅; types.Data := "{}" |}.



(** A dictionary one of whose values names another key. *)
Definition nested : gmap string GoValue :=
  <["a" := VString "${b}"]> (<["b" := VString "x"]> ∅).

Definition drop_bag : gmap string GoValue :=
  {["sql" := VString "drop table users"]}.

(** A database on which every statement affects three rows and the last
    inserted id is 7, and whose queries deliver the rows (1, ann) and
    (2, bob) of the columns id and name, the id as an [int64]. *)
Definition three_rows : sql.Result :=
  {| sql.RowsAffected := (3, None); sql.LastInsertId := (7, None) |}.

Definition two_users : sql.Rows :=
  {| sql.Columns := inr ["id"; "name"];
     sql.scans := [inr [VInt64 1; VString "ann"]; inr [VInt64 2; VString "bob"]];
     sql.Rows_Err := None |}.

Definition up : sql.DB :=
  {| sql.Query _ _ := inr two_users; sql.Exec _ _ := inr three_rows;
     sql.Ping := None |}.

Definition updating : action.DbClientNode :=
  {| action.config :=
       {| action.Sql := "update users set age = ? where name = ${name}";
          action.Params := [VInt 5]; action.GetOne := false;
          action.PoolSize := 0; action.DbType := "mysql"; action.Dsn := "" |};
     action.db := Some up; action.opType := "UPDATE";
     action.paramsHasVar := false |}.

Definition selecting : action.DbClientNode :=
  {| action.config :=
       {| action.Sql := "select id, name from users";
          action.Params := []; action.GetOne := false;
          action.PoolSize := 0; action.DbType := "mysql"; action.Dsn := "" |};
     action.db := Some up; action.opType := "SELECT";
     action.paramsHasVar := false |}.

Definition inserting : action.DbClientNode :=
  {| action.config := action.config updating; action.db := Some up;
     action.opType := "INSERT"; action.paramsHasVar := false |}.

(** The same node on the database that fails every statement. *)
Definition refusing : action.DbClientNode :=
  {| action.config := action.config updating; action.db := Some down;
     action.opType := "UPDATE"; action.paramsHasVar := false |}.

(** A database whose queries find no row, one whose second row fails to
    scan, and one that delivers every value as a byte slice. *)
Definition no_row : sql.DB :=
  {| sql.Query _ _ :=
       inr {| sql.Columns := inr ["id"; "name"]; sql.scans := [];
              sql.Rows_Err := None |};
     sql.Exec _ _ := inr three_rows; sql.Ping := None |}.

Definition broken_rows : sql.Rows :=
  {| sql.Columns := inr ["id"; "name"];
     sql.scans := [inr [VInt64 1; VString "ann"]; inl (Err "sql: Scan error")];
     sql.Rows_Err := None |}.

Definition broken : sql.DB :=
  {| sql.Query _ _ := inr broken_rows; sql.Exec _ _ := inr three_rows;
     sql.Ping := None |}.

Definition text_rows : sql.Rows :=
  {| sql.Columns := inr ["id"; "name"];
     sql.scans := [inr [VBytes "1"; VBytes "ann"]; inr [VBytes "2"; VBytes "bob"]];
     sql.Rows_Err := None |}.

Definition text : sql.DB :=
  {| sql.Query _ _ := inr text_rows; sql.Exec _ _ := inr three_rows;
     sql.Ping := None |}.

Definition on_database (d : sql.DB) (getOne : bool) : action.DbClientNode :=
  {| action.config :=
       {| action.Sql := "select id, name from users";
          action.Params := []; action.GetOne := getOne;
          action.PoolSize := 0; action.DbType := "mysql"; action.Dsn := "" |};
     action.db := Some d; action.opType := "SELECT";
     action.paramsHasVar := false |}.

Definition forwards : MapOrder := map_to_list.
Definition backwards : MapOrder := fun m => reverse (map_to_list m).

End example.

(** ** Notions the properties are stated with *)

(** The placeholder of a key, [varPattern] in [ProcessVar]. *)
Definition placeholder (key : string) : string :=
  str.varPatternLeft +:+ key +:+ str.varPatternRight.

(** A string of ASCII bytes none of which is a dollar sign, a closing
    brace or a space. *)
Fixpoint plain (s : string) : bool :=
  match s with
  | EmptyString => true
  | String c s' =>
    (byte c <? 0x80) && negb (bool_decide (c = "$"%char))
    && negb (bool_decide (c = "}"%char)) && negb (bool_decide (c = " "%char))
    && plain s'
  end.


(** The string a call has returned; the empty string stands for a call
    that did not return. *)
Definition returned (o : Outcome string) : string :=
  match o with
  | Ret s => s
  | _ => ""
  end.

(** The number an [int] printed in decimal reads as. *)
Definition read_decimal (s : string) : option Z :=
  Z.of_int <$> NilZero.int_of_string s.

(** * Properties *)

(** ** The engine configuration *)
Section ConfigFacts.
Import types.
Context {DebugFunc EndFunc OtherPool ComponentRegistry ParserI LoggerI : Type}.
Variable DefaultLogger : LoggerI.

Abbreviation config0 :=
  (NewConfig (DebugFunc:=DebugFunc) (EndFunc:=EndFunc) (OtherPool:=OtherPool)
             (ComponentRegistry:=ComponentRegistry) (ParserI:=ParserI)
             DefaultLogger []).

Lemma NewConfig_no_option_fields :
  OnDebug config0 = None /\ OnEnd config0 = None /\ Pool config0 = None
  /\ ComponentsRegistry config0 = None /\ Parser config0 = None
  /\ Logger config0 = Some DefaultLogger.
Proof. repeat split. Qed.

(** C4: [NewConfig] with an empty option list returns a [Config] whose
    [JsMaxExecutionTime] is 2000 milliseconds. *)
Theorem NewConfig_JsMaxExecutionTime_default :
  JsMaxExecutionTime config0 = 2000 * time.Millisecond
  /\ time.Milliseconds (JsMaxExecutionTime config0) = 2000.
Proof. split; reflexivity. Qed.

(** C3, as the code has it: [NewConfig] with no option leaves [Pool]
    nil; the pool whose [MaxWorkersCount] is [math.MaxInt32], started,
    is what [DefaultPool] returns and what the option [WithDefaultPool]
    installs. *)
Theorem NewConfig_Pool_default :
  Pool config0 = None
  /\ pool_cap config0 = None
  /\ DefaultPool (OtherPool:=OtherPool)
     = WorkerPoolRef {| pool.MaxWorkersCount := MaxInt32; pool.started := true |}
  /\ Pool (NewConfig (DebugFunc:=DebugFunc) (EndFunc:=EndFunc)
             (ComponentRegistry:=ComponentRegistry) (ParserI:=ParserI)
             DefaultLogger [WithDefaultPool])
     = Some (DefaultPool (OtherPool:=OtherPool))
  /\ pool_cap (NewConfig (DebugFunc:=DebugFunc) (EndFunc:=EndFunc)
                 (OtherPool:=OtherPool)
                 (ComponentRegistry:=ComponentRegistry) (ParserI:=ParserI)
                 DefaultLogger [WithDefaultPool])
     = Some MaxInt32.
Proof. repeat split. Qed.

End ConfigFacts.

(** C3, as stated, fails: the configuration built with no option holds no
    pool at all, so none whose [MaxWorkersCount] is [math.MaxInt32]. *)
Lemma NewConfig_no_option_has_no_pool :
  types.pool_cap
    (types.NewConfig (DebugFunc:=unit) (EndFunc:=unit) (OtherPool:=unit)
                     (ComponentRegistry:=unit) (ParserI:=unit) (LoggerI:=unit)
                     tt [])
  <> Some MaxInt32.
Proof. discriminate. Qed.

(** ** ToString *)



(** ** SprintfDict *)

Lemma forwards_valid : valid_order example.forwards.
Proof. intros m. reflexivity. Qed.

Lemma backwards_valid : valid_order example.backwards.
Proof. intros m. apply reverse_Permutation. Qed.

(** C9 fails on the code: for the pattern [${a}] and the dictionary
    [{a: "${b}", b: "x"}], the loop yields [x] when it meets [a] before
    [b] and [${b}] when it meets [b] before [a]; both orders are orders a
    [range] over the map may take. *)
Theorem SprintfDict_depends_on_order `{GoRuntime} :
  valid_order example.forwards /\ valid_order example.backwards
  /\ str.SprintfDict example.forwards "${a}" example.nested = "x"
  /\ str.SprintfDict example.backwards "${a}" example.nested = "${b}".
Proof.
  split; [apply forwards_valid |].
  split; [apply backwards_valid |].
  split; vm_compute; reflexivity.
Qed.

(** ** DbClientNode.OnMsg *)
Section OnMsgFacts.
Import action types.
Context `{GoRuntime}.

Lemma run_op_cases (x : DbClientNode) (sqlStr : string) (params : list GoValue) :
  match run_op x sqlStr params with
  | Ret _ => True
  | Panic _ => db x = None /\ supported (opType x) = true
  | OutOfFuel => False
  end.
Proof.
  unfold run_op, supported, query, update, insert, delete, on_db.
  destruct (db x) as [d|]; repeat case_bool_decide; simpl;
    repeat case_match; simplify_eq; auto.
Qed.

(** What [query] returns as [data] has no method for [ToString] to
    call: it is nil, a map or a slice of maps. *)
Lemma run_op_data (x : DbClientNode) (sqlStr : string) (params : list GoValue)
    (data : GoValue) (rowsAffected lastInsertId : Z) (err : option GoError) :
  run_op x sqlStr params = Ret (data, rowsAffected, lastInsertId, err) ->
  exists printed, str.ToString data = Ret printed.
Proof.
  unfold run_op, query, update, insert, delete, on_db.
  destruct (db x) as [d|]; repeat case_bool_decide; simpl;
    repeat case_match; intros; simplify_eq; simpl;
    try destruct (json_Marshal _); by eexists.
Qed.

(** C1, as the code has it: whenever [OnMsg] returns it has made
    exactly one call on the context, [TellSuccess] or [TellFailure]; it
    returns nil exactly when that call is [TellSuccess], and with
    [TellFailure] it returns the very error it has just passed on.  It
    does not return only when the node holds no database handle. *)
Theorem OnMsg_tells_once (ords : nat -> MapOrder) (x : DbClientNode)
    (msg : RuleMsg) :
  match OnMsg ords x msg with
  | Ret (calls, err) =>
    (exists e, calls = [TellFailure msg (Some e)] /\ err = Some e)
    \/ (exists msg', calls = [TellSuccess msg'] /\ err = None)
  | Panic _ => db x = None /\ supported (opType x) = true
  | OutOfFuel => False
  end.
Proof.
  unfold OnMsg.
  match goal with
  | |- context [run_op x ?s ?p] =>
    pose proof (run_op_cases x s p) as Hop;
    pose proof (run_op_data x s p) as Hdata;
    destruct (run_op x s p) as [[[[data rowsAffected] lastInsertId] [e|]]|reason|]
  end; try exact Hop.
  - left. eauto.
  - destruct (Hdata data rowsAffected lastInsertId None eq_refl) as [printed ->].
    repeat case_bool_decide; simpl; right; eauto.
Qed.

End OnMsgFacts.

(** C1, as stated, fails: a node initialised on a database that refuses
    the statement calls [TellFailure] and returns the error as well. *)
Lemma OnMsg_tells_and_returns_error :
  let x := fst (action.Init (H:=example.runtime) example.Map2Struct
                            example.sql_Open action.New example.select_bag) in
  snd (action.Init (H:=example.runtime) example.Map2Struct example.sql_Open
                   action.New example.select_bag) = Ret None
  /\ action.OnMsg (H:=example.runtime) (fun _ => example.forwards) x example.hello
     = Ret ([action.TellFailure example.hello (Some example.refused)],
            Some example.refused)
  /\ ~ action.one_call_or_error
        (action.OnMsg (H:=example.runtime) (fun _ => example.forwards) x
                      example.hello).
Proof.
  split; [vm_compute; reflexivity |].
  split; [vm_compute; reflexivity |].
  vm_compute. intros [[_ Herr]|[Hcalls _]]; discriminate.
Qed.

(** ** DbClientNode.Init *)
Section InitFacts.
Import action.
Context `{GoRuntime}.
Variable Map2Struct :
  gmap string GoValue -> DbClientNodeConfiguration ->
  DbClientNodeConfiguration * option GoError.
Variable sql_Open : string -> string -> GoError + sql.DB.

(** C5 fails on the code: when the statement has no word, because it is
    empty or blank, and the handle has been opened, [Init] indexes the
    empty list of words and panics instead of returning an error. *)
Theorem Init_blank_Sql_panics (x : DbClientNode) (bag : gmap string GoValue)
    (cfg : DbClientNodeConfiguration) (d : sql.DB) :
  Map2Struct bag (config x) = (cfg, None) ->
  sql_Open (DbType (defaulted cfg)) (Dsn (defaulted cfg)) = inr d ->
  strings.Fields (Sql cfg) = [] ->
  snd (Init Map2Struct sql_Open x bag) = Panic index_out_of_range.
Proof.
  intros Hdec Hopen Hwords. unfold Init. rewrite Hdec.
  fold (defaulted cfg). rewrite Hopen.
  assert (Sql (defaulted cfg) = Sql cfg) as ->
    by (unfold defaulted; case_bool_decide; reflexivity).
  rewrite Hwords. reflexivity.
Qed.

(** C6: when the bag decodes without error to a record whose [DbType]
    is empty, [Init] goes on exactly as it does for the same record
    with [DbType] set to "mysql", and leaves that value in the node. *)
Theorem Init_DbType_default (x : DbClientNode) (bag : gmap string GoValue)
    (cfg : DbClientNodeConfiguration) :
  Map2Struct bag (config x) = (cfg, None) ->
  DbType cfg = "" ->
  DbType (config (fst (Init Map2Struct sql_Open x bag))) = "mysql"
  /\ Init Map2Struct sql_Open x bag
     = Init (fun _ _ => (set_DbType "mysql" cfg, None)) sql_Open x bag.
Proof.
  intros Hdec Hty. unfold Init. rewrite Hdec.
  rewrite Hty. simpl.
  split; [| reflexivity].
  repeat case_match; reflexivity.
Qed.

End InitFacts.

Lemma Init_blank_Sql_panics_witness :
  snd (action.Init (H:=example.runtime) example.Map2Struct example.sql_Open
                   action.New example.blank_bag)
  = Panic action.index_out_of_range.
Proof.
  apply (Init_blank_Sql_panics (H:=example.runtime) example.Map2Struct
           example.sql_Open action.New example.blank_bag
           (fst (example.Map2Struct example.blank_bag (action.config action.New)))
           example.down); reflexivity.
Defined.

Lemma Init_DbType_default_witness :
  action.DbType
    (action.config
       (fst (action.Init (H:=example.runtime) example.Map2Struct
                         example.sql_Open action.New example.select_bag)))
  = "mysql"
  /\ action.Init (H:=example.runtime) example.Map2Struct example.sql_Open
                 action.New example.select_bag
     = action.Init (H:=example.runtime)
         (fun _ _ =>
            (action.set_DbType "mysql"
               (fst (example.Map2Struct example.select_bag
                       (action.config action.New))), None))
         example.sql_Open action.New example.select_bag.
Proof.
  apply (Init_DbType_default (H:=example.runtime) example.Map2Struct
           example.sql_Open action.New example.select_bag
           (fst (example.Map2Struct example.select_bag (action.config action.New))));
    reflexivity.
Defined.

(** ** The library functions on small inputs *)

Example Fields_statement :
  strings.Fields "  select * from  t " = ["select"; "*"; "from"; "t"].
Proof. reflexivity. Qed.

Example Replace_all : strings.Replace "${a}-${a}" "${a}" "x" (-1) = "x-x".
Proof. reflexivity. Qed.

Example Replace_one : strings.Replace "a=? and b=?" "?" "$1" 1 = "a=$1 and b=?".
Proof. reflexivity. Qed.

Example Replace_empty_old : strings.Replace "abc" "" "-" (-1) = "-a-b-c-".
Proof. reflexivity. Qed.

Example Itoa_negative : strconv.Itoa (-15) = "-15".
Proof. reflexivity. Qed.

Example ToString_uint_wraps `{GoRuntime} : str.ToString (VUint (2 ^ 64 - 1)) = Ret "-1".
Proof. reflexivity. Qed.

Example dollar_placeholders_two :
  str.dollar_placeholders "a=? and b=?" 1 = "a=$1 and b=$2".
Proof. reflexivity. Qed.

(** ** Byte strings: append, take, drop, search *)
Section StringFacts.

Lemma str_app_nil_l (b : string) : "" +:+ b = b.
Proof. reflexivity. Qed.

Lemma str_app_cons (x : ascii) (a b : string) :
  String x a +:+ b = String x (a +:+ b).
Proof. reflexivity. Qed.

Ltac str_induction a :=
  induction a as [|? a IH]; rewrite ?str_app_nil_l, ?str_app_cons; simpl.

Lemma str_app_assoc (a b c : string) : (a +:+ b) +:+ c = a +:+ (b +:+ c).
Proof. str_induction a; [reflexivity | by rewrite IH]. Qed.

Lemma str_app_nil_r (a : string) : a +:+ "" = a.
Proof. str_induction a; [reflexivity | by rewrite IH]. Qed.

Lemma str_length_app (a b : string) :
  String.length (a +:+ b) = (String.length a + String.length b)%nat.
Proof. str_induction a; [reflexivity | by rewrite IH]. Qed.

Lemma str_take_app (a b : string) : str_take (String.length a) (a +:+ b) = a.
Proof. str_induction a; [by destruct b | by rewrite IH]. Qed.

Lemma str_drop_app (a b : string) : str_drop (String.length a) (a +:+ b) = b.
Proof. str_induction a; [reflexivity | exact IH]. Qed.

Lemma str_drop_app_cons (a : string) (x : ascii) (b : string) :
  str_drop (String.length a + 1) (a +:+ String x b) = b.
Proof. str_induction a; [reflexivity | exact IH]. Qed.

Lemma count_byte_app (c : ascii) (a b : string) :
  count_byte c (a +:+ b) = (count_byte c a + count_byte c b)%nat.
Proof. str_induction a; [reflexivity | rewrite IH; lia]. Qed.

Lemma count_byte_le_length (c : ascii) (s : string) :
  (count_byte c s <= String.length s)%nat.
Proof. induction s as [|x s IH]; simpl; [lia | case_bool_decide; lia]. Qed.

Lemma prefix_nil (s : string) : String.prefix "" s = true.
Proof. by destruct s. Qed.

(** Searching for a single byte. *)
Lemma Index_byte_cons (c x : ascii) (s : string) :
  strings.Index (String x s) (String c "")
  = if bool_decide (x = c) then Some O else S <$> strings.Index s (String c "").
Proof.
  simpl. destruct (ascii_dec c x) as [->|Hne].
  - rewrite prefix_nil. by rewrite bool_decide_true.
  - rewrite bool_decide_false by congruence. reflexivity.
Qed.

Lemma Index_byte_absent (c : ascii) (s : string) :
  count_byte c s = O -> strings.Index s (String c "") = None.
Proof.
  induction s as [|x s IH]; [reflexivity |].
  intros Hc. rewrite Index_byte_cons. simpl in Hc.
  case_bool_decide; [lia |]. rewrite IH by lia. reflexivity.
Qed.

Lemma Index_byte_first (c : ascii) (p r : string) :
  count_byte c p = O ->
  strings.Index (p +:+ String c r) (String c "") = Some (String.length p).
Proof.
  induction p as [|x p IH]; intros Hc.
  - rewrite str_app_nil_l, Index_byte_cons. by rewrite bool_decide_true.
  - rewrite str_app_cons, Index_byte_cons. simpl in Hc.
    case_bool_decide; [lia |]. rewrite IH by lia. reflexivity.
Qed.

Lemma Contains_byte (c : ascii) (s : string) :
  strings.Contains s (String c "") = negb (count_byte c s =? 0)%nat.
Proof.
  unfold strings.Contains.
  induction s as [|x s IH].
  - reflexivity.
  - rewrite Index_byte_cons. simpl count_byte.
    destruct (decide (x = c)) as [Hx|Hx].
    + rewrite !(bool_decide_true (x = c)) by exact Hx.
      rewrite bool_decide_true by eauto. reflexivity.
    + rewrite !(bool_decide_false (x = c)) by exact Hx.
      simpl. rewrite <- IH.
      destruct (strings.Index s (String c "")) as [i|]; reflexivity.
Qed.

(** Replacing the first instance of a byte. *)
Lemma Replace_first_byte (c : ascii) (p r new : string) :
  count_byte c p = O -> new <> String c "" ->
  strings.Replace (p +:+ String c r) (String c "") new 1 = p +:+ new +:+ r.
Proof.
  intros Hp Hnew. unfold strings.Replace.
  rewrite bool_decide_false by congruence. simpl orb.
  unfold strings.Count.
  assert (exists f, String.length (p +:+ String c r) = S f) as [f Hf].
  { rewrite str_length_app. simpl. exists (String.length p + String.length r)%nat. lia. }
  rewrite Hf. simpl strings.count_loop. rewrite Index_byte_first by exact Hp.
  simpl Nat.eqb. cbn iota. simpl orb.
  match goal with
  | |- context [Z.of_nat ?m <? 1] =>
    destruct (Z.ltb_spec (Z.of_nat m) 1) as [Hlt|_]; [lia |]
  end.
  change (Z.to_nat 1) with 1%nat.
  simpl strings.replace_loop. rewrite Index_byte_first by exact Hp.
  rewrite str_take_app. simpl String.length.
  rewrite str_drop_app_cons. reflexivity.
Qed.

(** *** The fuel of the library loops is enough *)

Lemma str_take_drop (n : nat) (s : string) : str_take n s +:+ str_drop n s = s.
Proof.
  revert s. induction n as [|n IH]; intros [|c s]; simpl; try reflexivity.
  rewrite str_app_cons, IH. reflexivity.
Qed.

Lemma str_length_drop (n : nat) (s : string) :
  String.length (str_drop n s) = (String.length s - n)%nat.
Proof.
  revert s. induction n as [|n IH]; intros [|c s]; simpl; try reflexivity; try lia.
  apply IH.
Qed.

(** A rune takes at least one byte and no more than there are. *)
Lemma DecodeRuneInString_size (c : ascii) (s : string) :
  (1 <= snd (utf8.DecodeRuneInString (String c s)) <= S (String.length s))%nat.
Proof.
  unfold utf8.DecodeRuneInString.
  destruct (utf8.first (byte c)) as [| |sz lo hi]; simpl; [lia | lia |].
  repeat case_match; simpl; lia.
Qed.

(** [range] goes through the whole string: the bytes of its runes, put
    together again, are the string. *)
Lemma range_loop_bytes (fuel : nat) (s : string) :
  (String.length s <= fuel)%nat ->
  foldr (fun rb rest => rb.2 +:+ rest) "" (utf8.range_loop fuel s) = s.
Proof.
  revert s. induction fuel as [|fuel IH]; intros [|c s] Hfuel;
    simpl in Hfuel; try reflexivity; [lia |].
  pose proof (DecodeRuneInString_size c s) as Hsize.
  cbn [utf8.range_loop].
  destruct (utf8.DecodeRuneInString (String c s)) as [r size]. simpl in Hsize.
  cbn [foldr snd]. rewrite IH.
  - apply str_take_drop.
  - rewrite str_length_drop. simpl. lia.
Qed.

Lemma range_bytes (s : string) :
  foldr (fun rb rest => rb.2 +:+ rest) "" (utf8.range s) = s.
Proof. apply range_loop_bytes. lia. Qed.

Lemma prefix_length (p s : string) :
  String.prefix p s = true -> (String.length p <= String.length s)%nat.
Proof.
  revert p. induction s as [|c s IH]; intros [|b p]; simpl; try lia; try discriminate.
  destruct (ascii_dec b c); [| discriminate]. intros Hp%IH. lia.
Qed.

Lemma Index_unfold (s substr : string) :
  strings.Index s substr
  = if String.prefix substr s then Some O
    else match s with
         | EmptyString => None
         | String _ s' => S <$> strings.Index s' substr
         end.
Proof. by destruct s. Qed.

Lemma Index_bound (s substr : string) (i : nat) :
  strings.Index s substr = Some i ->
  (i + String.length substr <= String.length s)%nat.
Proof.
  revert i. induction s as [|c s IH]; intros i; rewrite Index_unfold.
  - destruct (String.prefix substr "") eqn:Hp; [| discriminate].
    intros [= <-]. apply prefix_length in Hp. simpl in *. lia.
  - destruct (String.prefix substr (String c s)) eqn:Hp.
    + intros [= <-]. apply prefix_length in Hp. simpl in *. lia.
    + destruct (strings.Index s substr) as [j|]; [| discriminate].
      intros [= <-]. specialize (IH j eq_refl). simpl. lia.
Qed.

(** [Count] never runs out of fuel: more fuel than the string has bytes
    counts the same. *)
Lemma count_loop_fuel (fuel1 fuel2 : nat) (s : string) (c : ascii) (substr : string) :
  (String.length s <= fuel1)%nat -> (String.length s <= fuel2)%nat ->
  strings.count_loop fuel1 s (String c substr)
  = strings.count_loop fuel2 s (String c substr).
Proof.
  revert fuel2 s. induction fuel1 as [|fuel1 IH]; intros fuel2 s H1 H2.
  - destruct s; [| simpl in H1; lia]. by destruct fuel2.
  - destruct fuel2 as [|fuel2].
    + destruct s; [| simpl in H2; lia]. reflexivity.
    + simpl. destruct (strings.Index s (String c substr)) as [i|] eqn:Hi;
        [| reflexivity].
      apply Index_bound in Hi. simpl in Hi. f_equal.
      apply IH; rewrite str_length_drop; simpl; lia.
Qed.

End StringFacts.

(** ** ConvertDollarPlaceholder *)
Section ConvertFacts.

Local Abbreviation qm := ("?"%char) (only parsing).

Lemma to_int_small (z : Z) : - 2 ^ 63 <= z < 2 ^ 63 -> to_int z = z.
Proof. intros Hz. unfold to_int. rewrite Z.mod_small by lia. lia. Qed.

Lemma string_of_uint_no_qmark (d : Decimal.uint) :
  count_byte qm (NilEmpty.string_of_uint d) = O.
Proof. induction d; simpl; try reflexivity; exact IHd. Qed.

Lemma string_of_int_no_qmark (i : Decimal.int) :
  count_byte qm (NilZero.string_of_int i) = O.
Proof.
  destruct i as [d|d]; simpl; unfold NilZero.string_of_uint;
    destruct d; simpl; try reflexivity; apply string_of_uint_no_qmark.
Qed.

Lemma Sprintf_dollar_d_no_qmark (n : Z) :
  count_byte qm (fmt.Sprintf_dollar_d n) = O.
Proof.
  unfold fmt.Sprintf_dollar_d, strconv.FormatInt10.
  rewrite count_byte_app. simpl count_byte at 1.
  rewrite string_of_int_no_qmark. reflexivity.
Qed.

Lemma Sprintf_dollar_d_not_qmark (n : Z) : fmt.Sprintf_dollar_d n <> "?".
Proof.
  intros Heq. pose proof (Sprintf_dollar_d_no_qmark n) as Hc.
  rewrite Heq in Hc. discriminate Hc.
Qed.

Lemma dollar_wrapping_no_qmark (r : string) (n : Z) :
  count_byte qm r = O -> str.dollar_wrapping r n = r.
Proof.
  induction r as [|c r IH]; simpl; [reflexivity |].
  case_bool_decide; [lia |]. intros Hc. rewrite IH by lia. reflexivity.
Qed.

Lemma dollar_placeholders_no_qmark (r : string) (i : Z) :
  count_byte qm r = O -> str.dollar_placeholders r i = r.
Proof.
  induction r as [|c r IH]; simpl; [reflexivity |].
  case_bool_decide; [lia |]. intros Hc. rewrite IH by lia. reflexivity.
Qed.

(** The loop, started on a string whose part [p] holds no question mark
    any more: it converts the rest [r], given one unit of fuel more than
    [r] has question marks. *)
Lemma convert_loop_prefix (r p : string) (n : Z) (fuel : nat) :
  count_byte qm p = O -> (count_byte qm r < fuel)%nat ->
  str.convert_loop fuel (p +:+ r) n = Some (p +:+ str.dollar_wrapping r n).
Proof.
  revert p n fuel. induction r as [|c r IH]; intros p n fuel Hp Hfuel.
  - destruct fuel as [|fuel]; [simpl in Hfuel; lia |].
    simpl. rewrite Contains_byte, count_byte_app, Hp. reflexivity.
  - simpl str.dollar_wrapping. simpl in Hfuel.
    destruct (decide (c = qm)) as [->|Hc].
    + rewrite bool_decide_true in * by reflexivity.
      destruct fuel as [|fuel]; [lia |].
      simpl str.convert_loop.
      rewrite Contains_byte, count_byte_app, Hp. simpl count_byte.
      simpl negb. cbn iota.
      rewrite Replace_first_byte
        by (try exact Hp; apply Sprintf_dollar_d_not_qmark).
      rewrite <- str_app_assoc.
      rewrite IH; [by rewrite str_app_assoc | | lia].
      rewrite count_byte_app, Hp, Sprintf_dollar_d_no_qmark. reflexivity.
    + rewrite bool_decide_false in * by exact Hc.
      replace (p +:+ String c r) with ((p +:+ String c "") +:+ r)
        by (by rewrite str_app_assoc).
      rewrite IH; [by rewrite str_app_assoc | | lia].
      rewrite count_byte_app, Hp. simpl.
      rewrite bool_decide_false by exact Hc. reflexivity.
Qed.

Lemma convert_loop_returns (sql : string) (n : Z) (fuel : nat) :
  (count_byte qm sql < fuel)%nat ->
  str.convert_loop fuel sql n = Some (str.dollar_wrapping sql n).
Proof.
  intros Hfuel.
  exact (convert_loop_prefix sql "" n fuel eq_refl Hfuel).
Qed.

(** The counter does not wrap while it is used. *)
Lemma dollar_wrapping_placeholders (r : string) (n : Z) :
  0 <= n -> n + Z.of_nat (count_byte qm r) <= 2 ^ 63 ->
  str.dollar_wrapping r n = str.dollar_placeholders r n.
Proof.
  revert n. induction r as [|c r IH]; intros n Hn Hbound; [reflexivity |].
  simpl in *. destruct (decide (c = qm)) as [->|Hc].
  - rewrite bool_decide_true in * by reflexivity. f_equal.
    destruct (decide (count_byte qm r = O)) as [Hz|Hnz].
    + by rewrite dollar_wrapping_no_qmark, dollar_placeholders_no_qmark.
    + rewrite to_int_small by lia. apply IH; lia.
  - rewrite bool_decide_false in * by exact Hc. f_equal. apply IH; lia.
Qed.

(** The loop ends on every input, within the fuel [Init] gives it. *)
Lemma ConvertDollarPlaceholder_fuel_enough (sql dbType : string) :
  str.ConvertDollarPlaceholder sql dbType
  = Some (if bool_decide (dbType = "postgres") then str.dollar_wrapping sql 1
          else sql).
Proof.
  unfold str.ConvertDollarPlaceholder, str.ConvertDollarPlaceholder_fuel.
  case_bool_decide; [| reflexivity].
  apply convert_loop_returns.
  pose proof (count_byte_le_length qm sql). lia.
Qed.

(** C8: given more iterations than the string has bytes, the function
    returns, on every input; it returns [sql] unchanged for a [dbType]
    other than "postgres", and for "postgres" it returns [sql] with its
    [i]-th question mark replaced by [$i], for every string whose length
    fits an [int]. *)
Theorem ConvertDollarPlaceholder_spec (sql dbType : string) (fuel : nat) :
  (String.length sql < fuel)%nat ->
  (exists result, str.ConvertDollarPlaceholder_fuel fuel sql dbType = Some result)
  /\ (dbType <> "postgres" ->
      str.ConvertDollarPlaceholder_fuel fuel sql dbType = Some sql)
  /\ (dbType = "postgres" -> Z.of_nat (String.length sql) < 2 ^ 63 ->
      str.ConvertDollarPlaceholder_fuel fuel sql dbType
      = Some (str.dollar_placeholders sql 1)).
Proof.
  intros Hfuel. unfold str.ConvertDollarPlaceholder_fuel.
  pose proof (count_byte_le_length qm sql) as Hcount.
  split; [| split].
  - case_bool_decide; [| by eexists].
    rewrite convert_loop_returns by lia. by eexists.
  - intros Hty. by rewrite bool_decide_false.
  - intros Hty Hlen. rewrite bool_decide_true by exact Hty.
    rewrite convert_loop_returns by lia.
    rewrite dollar_wrapping_placeholders by lia. reflexivity.
Qed.

End ConvertFacts.

Lemma ConvertDollarPlaceholder_spec_witness :
  str.ConvertDollarPlaceholder_fuel 40 "select * from t where a=? and b=?" "postgres"
  = Some "select * from t where a=$1 and b=$2"
  /\ str.ConvertDollarPlaceholder_fuel 40 "select * from t where a=? and b=?" "mysql"
     = Some "select * from t where a=? and b=?".
Proof.
  split.
  - destruct (ConvertDollarPlaceholder_spec
                "select * from t where a=? and b=?" "postgres" 40)
      as (_ & _ & Hpostgres); [vm_compute; lia |].
    rewrite Hpostgres; [reflexivity | reflexivity | vm_compute; reflexivity].
  - destruct (ConvertDollarPlaceholder_spec
                "select * from t where a=? and b=?" "mysql" 40)
      as (_ & Hother & _); [vm_compute; lia |].
    apply Hother. discriminate.
Defined.

(** ** Dispatch and the end-of-message callback *)
Section DispatchFacts.
Import engine types.
Variables debug silent_failure : bool.

Lemma OnEnd_calls_app (evs1 evs2 : list Event) :
  OnEnd_calls (evs1 ++ evs2) = OnEnd_calls evs1 ++ OnEnd_calls evs2.
Proof. apply omap_app. Qed.

Lemma OnEnd_calls_before (relation nodeId : string) (msg : RuleMsg) :
  OnEnd_calls (if debug then [DebugBefore relation nodeId msg] else []) = [].
Proof. by destruct debug. Qed.

Lemma OnEnd_calls_after (relation nodeId : string) (msg : RuleMsg)
    (err : option GoError) :
  OnEnd_calls (if debug then [DebugAfter relation nodeId msg err] else []) = [].
Proof. by destruct debug. Qed.

(** Fan-out: the calls of the branches, branch after branch, are the
    leaves of the branches. *)
Lemma fan_out_calls (f : string -> option (list Event))
    (g : string -> option (list (string * RuleMsg * option GoError)))
    (ts : list string) :
  (forall t, OnEnd_calls <$> f t = fmap at_leaf <$> g t) ->
  (fun evs => OnEnd_calls (concat evs)) <$> mapM f ts
  = (fun lvs => at_leaf <$> concat lvs) <$> mapM g ts.
Proof.
  intros Hfg. induction ts as [|t ts IH]; [reflexivity |].
  simpl. specialize (Hfg t).
  destruct (f t) as [ev|], (g t) as [lv|]; simplify_eq/=; try reflexivity.
  destruct (mapM f ts) as [evs|], (mapM g ts) as [lvs|]; simplify_eq/=;
    try reflexivity.
  rewrite OnEnd_calls_app, fmap_app. congruence.
Qed.

#[local] Arguments mapM : simpl never.

Lemma dispatch_leaves (fuel : nat) (c : CompiledChain) (relation nodeId : string)
    (msg : RuleMsg) :
  OnEnd_calls <$> dispatch debug silent_failure fuel c relation nodeId msg
  = fmap at_leaf <$> leaves silent_failure fuel c nodeId msg.
Proof.
  revert relation nodeId msg.
  induction fuel as [|fuel IH]; intros relation nodeId msg; [reflexivity |].
  simpl. destruct (nodes c !! nodeId) as [onMsg|]; simpl.
  2: { reflexivity. }
  destruct (onMsg msg) as [rel msg' err|e]; simpl.
  2: { by rewrite OnEnd_calls_app, OnEnd_calls_before. }
  destruct (targets c nodeId rel) as [|t ts] eqn:Hts.
  - destruct (silent silent_failure rel); simpl.
    + by rewrite OnEnd_calls_before.
    + by rewrite !OnEnd_calls_app, OnEnd_calls_before, OnEnd_calls_after.
  - cbv beta iota. clear Hts.
    generalize (t :: ts). clear t ts. intros ts.
    pose proof (fan_out_calls
                  (fun t => dispatch debug silent_failure fuel c rel t msg')
                  (fun t => leaves silent_failure fuel c t msg')
                  ts (fun t => IH rel t msg')) as Hfan.
    destruct (mapM (fun t => dispatch debug silent_failure fuel c rel t msg') ts)
      as [evs|],
             (mapM (fun t => leaves silent_failure fuel c t msg') ts)
      as [lvs|]; simplify_eq/=; try reflexivity.
    rewrite OnEnd_calls_app, OnEnd_calls_before. simpl. congruence.
Qed.

Lemma elem_of_concat {A : Type} (x : A) (ls : list (list A)) :
  x ∈ concat ls <-> exists l, x ∈ l /\ l ∈ ls.
Proof.
  induction ls as [|l ls IH]; simpl.
  - split; [by intros ?%elem_of_nil | by intros (l & _ & ?%elem_of_nil)].
  - rewrite elem_of_app, IH. split.
    + intros [Hx|(l' & Hx & Hl')]; [exists l | exists l'];
        (split; [assumption |]); [by left | by right].
    + intros (l' & Hx & [->|Hl']%elem_of_cons); [by left |].
      right. by exists l'.
Qed.

(** The leaves listed are the leaves reached. *)
Lemma leaves_reaches (fuel : nat) (c : CompiledChain) (nodeId : string)
    (msg : RuleMsg) (lv : list (string * RuleMsg * option GoError))
    (leaf : string * RuleMsg * option GoError) :
  leaves silent_failure fuel c nodeId msg = Some lv ->
  leaf ∈ lv <-> reaches silent_failure c nodeId msg leaf.
Proof.
  revert nodeId msg lv.
  induction fuel as [|fuel IH]; intros nodeId msg lv Hlv; [discriminate |].
  simpl in Hlv.
  destruct (nodes c !! nodeId) as [onMsg|] eqn:Hnode.
  2: { simplify_eq. split; [by intros ?%elem_of_nil |].
       intros Hr. inversion Hr; congruence. }
  destruct (onMsg msg) as [rel msg' err|e] eqn:Hon.
  2: { simplify_eq. split; [by intros ?%elem_of_nil |].
       intros Hr. inversion Hr; congruence. }
  assert (forall onMsg0 rel0 msg0 err0,
             nodes c !! nodeId = Some onMsg0 -> onMsg0 msg = Told rel0 msg0 err0 ->
             rel0 = rel /\ msg0 = msg' /\ err0 = err) as Hsame.
  { intros onMsg0 rel0 msg0 err0 Hn Ho. rewrite Hnode in Hn.
    injection Hn as <-. rewrite Hon in Ho. by injection Ho as <- <- <-. }
  destruct (targets c nodeId rel) as [|t ts] eqn:Hts.
  - destruct (silent silent_failure rel) eqn:Hsilent; simplify_eq.
    + split; [by intros ?%elem_of_nil |].
      intros Hr. inversion Hr as [? ? ? ? ? ? Hn Ho Ht Hs|? ? ? ? ? ? ? ? Hn Ho Hin Hrec];
        subst; destruct (Hsame _ _ _ _ Hn Ho) as (-> & -> & ->).
      * congruence.
      * rewrite Hts in Hin. by apply elem_of_nil in Hin.
    + split.
      * intros ->%list_elem_of_singleton. by eapply reaches_here.
      * intros Hr. inversion Hr as [? ? ? ? ? ? Hn Ho Ht Hs|? ? ? ? ? ? ? ? Hn Ho Hin Hrec];
          subst; destruct (Hsame _ _ _ _ Hn Ho) as (-> & -> & ->).
        -- by apply list_elem_of_singleton.
        -- rewrite Hts in Hin. by apply elem_of_nil in Hin.
  - cbv beta iota in Hlv. rewrite <- Hts in Hlv.
    destruct (mapM (fun t => leaves silent_failure fuel c t msg')
                   (targets c nodeId rel)) as [lvs|] eqn:Hmap; simplify_eq/=.
    apply mapM_Some in Hmap. split.
    + intros (lv_t & Hleaf & Hlv_t)%elem_of_concat.
      apply list_elem_of_lookup in Hlv_t as [i Hi].
      destruct (Forall2_lookup_r _ _ _ _ _ Hmap Hi) as (u & Hu & Hleaves).
      eapply reaches_below; eauto.
      * eapply list_elem_of_lookup_2, Hu.
      * by apply (IH _ _ _ Hleaves).
    + intros Hr. inversion Hr as [? ? ? ? ? ? Hn Ho Ht Hs|? ? ? ? ? ? ? ? Hn Ho Hin Hrec];
        subst; destruct (Hsame _ _ _ _ Hn Ho) as (-> & -> & ->).
      { rewrite Ht in Hts. discriminate. }
      apply list_elem_of_lookup in Hin as [i Hi].
      destruct (Forall2_lookup_l _ _ _ _ _ Hmap Hi) as (lv_t & Hlv_t & Hleaves).
      apply elem_of_concat. exists lv_t. split.
      * by apply (IH _ _ _ Hleaves).
      * eapply list_elem_of_lookup_2, Hlv_t.
Qed.

(** On a chain without cycle, where every edge leads to a node of lower
    rank, the traversal ends: fuel above the rank of the node gives the
    events. *)
Lemma dispatch_returns_on_dag (c : CompiledChain) (rank : string -> nat) :
  (forall nodeId rel t, t ∈ targets c nodeId rel -> (rank t < rank nodeId)%nat) ->
  forall (fuel : nat) (relation nodeId : string) (msg : RuleMsg),
    (rank nodeId < fuel)%nat ->
    is_Some (dispatch debug silent_failure fuel c relation nodeId msg).
Proof.
  intros Hrank. induction fuel as [|fuel IH]; intros relation nodeId msg Hfuel;
    [lia |].
  simpl. destruct (nodes c !! nodeId) as [onMsg|]; [| by eexists].
  destruct (onMsg msg) as [rel msg' err|e]; [| by eexists].
  destruct (targets c nodeId rel) as [|t ts] eqn:Hts.
  - destruct (silent silent_failure rel); by eexists.
  - cbv beta iota. rewrite <- Hts.
    assert (is_Some (mapM (fun t => dispatch debug silent_failure fuel c rel t msg')
                          (targets c nodeId rel))) as [evs ->].
    { apply mapM_is_Some, Forall_forall. intros u Hu. simpl.
      apply IH. specialize (Hrank _ _ _ Hu). lia. }
    by eexists.
Qed.

(** C2: the end-of-message callback is invoked once per terminal leaf
    the traversal reaches, with the message and error told there; on
    the chain A -> {B, C}, both edges on "Success", it is invoked
    exactly twice for one input message, once with what B passed on and
    once with what C passed on. *)
Theorem OnEnd_once_per_leaf :
  (forall (fuel : nat) (c : CompiledChain) (msg : RuleMsg),
      OnEnd_calls <$> OnMsg debug silent_failure fuel c msg
      = fmap at_leaf <$> leaves silent_failure fuel c (root c) msg)
  /\ (forall (fuel : nat) (c : CompiledChain) (msg : RuleMsg),
         (length ∘ OnEnd_calls) <$> OnMsg debug silent_failure fuel c msg
         = length <$> leaves silent_failure fuel c (root c) msg)
  /\ (forall (fa fb fc : RuleMsg -> RuleMsg) (fuel : nat) (msg : RuleMsg),
         OnEnd_calls <$>
           OnMsg debug silent_failure (S (S fuel))
                 (fan_out (fun m => tellSuccess (fa m))
                          (fun m => tellSuccess (fb m))
                          (fun m => tellSuccess (fc m))) msg
         = Some [(fb (fa msg), None); (fc (fa msg), None)]).
Proof.
  split; [| split].
  - intros fuel c msg. apply dispatch_leaves.
  - intros fuel c msg.
    pose proof (dispatch_leaves fuel c "" (root c) msg) as Heq.
    unfold OnMsg.
    destruct (dispatch debug silent_failure fuel c "" (root c) msg) as [evs|],
             (leaves silent_failure fuel c (root c) msg) as [lvs|];
      simplify_eq/=; try reflexivity.
    rewrite Heq, length_fmap. reflexivity.
  - intros fa fb fc fuel msg. unfold OnMsg.
    rewrite dispatch_leaves. by destruct silent_failure.
Qed.

End DispatchFacts.

(** ** The worker pool *)
Section PoolFacts.
Import pool.
Variable wp : WorkerPool.
Variable K : nat.
Hypothesis capacity : MaxWorkersCount wp = Z.of_nat K.

Lemma step_running_bound (s : State) (e : Event) :
  (length (running s) <= K)%nat -> (length (running (step wp s e)) <= K)%nat.
Proof.
  intros Hs. destruct e as [t|t]; simpl.
  - rewrite capacity.
    destruct (Z.ltb_spec (Z.of_nat (length (running s))) (Z.of_nat K));
      simpl; [rewrite length_app; simpl; lia | exact Hs].
  - case_bool_decide as Hin; [| exact Hs].
    assert (length (filter (fun u => u ≠ t) (running s)) < length (running s))%nat
      as Hlt by (apply (length_filter_lt _ _ t Hin); intros Hne; by apply Hne).
    destruct (queued s) as [|q qs]; simpl; [| rewrite length_app; simpl]; lia.
Qed.

Lemma run_running_bound (es : list Event) (s : State) :
  (length (running s) <= K)%nat -> (length (running (run wp es s)) <= K)%nat.
Proof.
  revert s. induction es as [|e es IH]; intros s Hs; [exact Hs |].
  simpl. apply IH, step_running_bound, Hs.
Qed.

Lemma run_cons (e : Event) (es : list Event) (s : State) :
  run wp (e :: es) s = run wp es (step wp s e).
Proof. reflexivity. Qed.

(** Tasks submitted while there is room start at once. *)
Lemma run_submit_room (ts r : list nat) :
  (length r + length ts <= K)%nat ->
  run wp (Submit <$> ts) {| running := r; queued := [] |}
  = {| running := r ++ ts; queued := [] |}.
Proof.
  revert r. induction ts as [|t ts IH]; intros r Hlen.
  - by rewrite app_nil_r.
  - rewrite fmap_cons, run_cons. cbn [step running queued length] in *.
    rewrite capacity.
    destruct (Z.ltb_spec (Z.of_nat (length r)) (Z.of_nat K)); [| lia].
    rewrite IH by (rewrite length_app; simpl; lia).
    by rewrite <- app_assoc.
Qed.

(** While none of the running tasks [ts] completes, they keep running
    and the task at the head of the queue keeps waiting. *)
Lemma run_full_waits (ts : list nat) (t : nat) (es : list Event)
    (q : list nat) :
  length ts = K -> t ∉ ts ->
  t ∈ running (run wp es {| running := ts; queued := t :: q |}) ->
  exists u, u ∈ ts /\ Complete u ∈ es.
Proof.
  intros Hlen Ht. revert q. induction es as [|e es IH]; intros q Hrun.
  - simpl in Hrun. contradiction.
  - rewrite run_cons in Hrun. destruct e as [u|u];
      cbn [step running queued] in Hrun.
    + rewrite capacity, Hlen, Z.ltb_irrefl in Hrun.
      destruct (IH _ Hrun) as (v & Hv & Hin).
      exists v. split; [exact Hv | by right].
    + case_bool_decide as Hu.
      * exists u. split; [exact Hu | by left].
      * destruct (IH _ Hrun) as (v & Hv & Hin).
        exists v. split; [exact Hv | by right].
Qed.

(** C7: a pool of capacity [K] never runs more than [K] tasks at once;
    of [K + 1] tasks submitted to the idle pool the first [K] run and
    the last one waits, and it runs only once one of the first [K] has
    completed. *)
Theorem pool_capacity :
  (forall es : list Event, (length (running (run wp es init)) <= K)%nat)
  /\ (forall (ts : list nat) (t : nat) (es : list Event),
         length ts = K -> NoDup (ts ++ [t]) ->
         let s := run wp (Submit <$> (ts ++ [t])) init in
         running s = ts /\ queued s = [t]
         /\ (t ∈ running (run wp es s) -> exists u, u ∈ ts /\ Complete u ∈ es)).
Proof.
  split.
  - intros es. apply run_running_bound. simpl. lia.
  - intros ts t es Hlen Hdup s.
    assert (s = {| running := ts; queued := [t] |}) as Hs.
    { unfold s, run. rewrite fmap_app, fold_left_app.
      fold (run wp (Submit <$> ts) init). unfold init.
      rewrite run_submit_room by (simpl; lia).
      cbn [fmap list_fmap fold_left step running queued app].
      by rewrite capacity, Hlen, Z.ltb_irrefl. }
    rewrite Hs. split; [reflexivity | split; [reflexivity |]].
    apply run_full_waits; [exact Hlen |].
    apply NoDup_app in Hdup as (_ & Hdisj & _).
    intros Hin. apply (Hdisj t Hin). by left.
Qed.

End PoolFacts.

Lemma pool_capacity_witness :
  let wp := {| pool.MaxWorkersCount := 2; pool.started := true |} in
  (forall es : list pool.Event,
      (length (pool.running (pool.run wp es pool.init)) <= 2)%nat)
  /\ (forall (ts : list nat) (t : nat) (es : list pool.Event),
         length ts = 2%nat -> NoDup (ts ++ [t]) ->
         let s := pool.run wp (pool.Submit <$> (ts ++ [t])) pool.init in
         pool.running s = ts /\ pool.queued s = [t]
         /\ (t ∈ pool.running (pool.run wp es s) ->
             exists u, u ∈ ts /\ pool.Complete u ∈ es)).
Proof.
  apply (pool_capacity {| pool.MaxWorkersCount := 2; pool.started := true |} 2).
  reflexivity.
Defined.

(** ** Init on blank and on unsupported statements *)
Section InitStatementFacts.
Import action.
Context `{GoRuntime}.
Variable Map2Struct :
  gmap string GoValue -> DbClientNodeConfiguration ->
  DbClientNodeConfiguration * option GoError.
Variable sql_Open : string -> string -> GoError + sql.DB.

Lemma range_loop_blank (s : string) (fuel : nat) :
  count_byte " " s = String.length s ->
  strings.fields_loop (utf8.range_loop fuel s) None = [].
Proof.
  revert fuel. induction s as [|c s IH]; intros fuel Hs.
  - by destruct fuel.
  - pose proof (count_byte_le_length " " s) as Hle.
    simpl in Hs. destruct (decide (c = " "%char)) as [->|Hc].
    2: { rewrite bool_decide_false in Hs by exact Hc. lia. }
    destruct fuel as [|fuel]; [reflexivity |].
    rewrite bool_decide_true in Hs by reflexivity.
    simpl. apply IH. lia.
Qed.

(** A statement made of spaces only has no word. *)
Lemma Fields_blank (s : string) :
  count_byte " " s = String.length s -> strings.Fields s = [].
Proof. intros Hs. apply range_loop_blank, Hs. Qed.

Lemma Sql_defaulted (cfg : DbClientNodeConfiguration) :
  Sql (defaulted cfg) = Sql cfg.
Proof. unfold defaulted. by case_bool_decide. Qed.

(** A statement whose first word, in upper case, is none of SELECT,
    UPDATE, INSERT and DELETE makes [Init] return an error. *)
Lemma Init_unsupported_returns_error (x : DbClientNode)
    (bag : gmap string GoValue) (cfg : DbClientNodeConfiguration) (d : sql.DB)
    (word0 : string) (words : list string) :
  Map2Struct bag (config x) = (cfg, None) ->
  sql_Open (DbType (defaulted cfg)) (Dsn (defaulted cfg)) = inr d ->
  strings.Fields (Sql cfg) = word0 :: words ->
  supported (ToUpper word0) = false ->
  snd (Init Map2Struct sql_Open x bag)
  = Ret (Some (fmt.Errorf_unsupported (Sql cfg))).
Proof.
  intros Hdec Hopen Hwords Hop. unfold Init. rewrite Hdec.
  fold (defaulted cfg). rewrite Hopen, Sql_defaulted, Hwords, Hop.
  rewrite ConvertDollarPlaceholder_fuel_enough. reflexivity.
Qed.

(** [Init] returns or panics, and it panics only on a statement without
    a word. *)
Lemma Init_outcome (x : DbClientNode) (bag : gmap string GoValue) :
  match snd (Init Map2Struct sql_Open x bag) with
  | Ret _ => True
  | Panic r =>
    r = index_out_of_range
    /\ exists cfg, Map2Struct bag (config x) = (cfg, None)
                   /\ strings.Fields (Sql cfg) = []
  | OutOfFuel => False
  end.
Proof.
  unfold Init. destruct (Map2Struct bag (config x)) as [cfg [e|]] eqn:Hdec;
    [exact I |].
  fold (defaulted cfg).
  destruct (sql_Open _ _) as [e|d]; [exact I |].
  rewrite Sql_defaulted.
  destruct (strings.Fields (Sql cfg)) as [|word0 words] eqn:Hwords.
  - simpl. split; [reflexivity |]. exists cfg. split; [reflexivity | exact Hwords].
  - rewrite ConvertDollarPlaceholder_fuel_enough. exact I.
Qed.

End InitStatementFacts.

(** * Further properties of the code *)

(** ** Occurrences of a substring *)
Section OccurrenceFacts.

Lemma prefix_app (p r : string) : String.prefix p (p +:+ r) = true.
Proof.
  induction p as [|c p IH]; [apply prefix_nil |].
  rewrite str_app_cons. simpl. destruct (ascii_dec c c); [exact IH | congruence].
Qed.

Lemma prefix_split (p s : string) :
  String.prefix p s = true -> s = p +:+ str_drop (String.length p) s.
Proof.
  revert p. induction s as [|c s IH]; intros [|b p]; simpl; try reflexivity;
    try discriminate.
  destruct (ascii_dec b c) as [->|]; [| discriminate].
  intros Hp. rewrite str_app_cons. f_equal. by apply IH.
Qed.

(** Where [Index] finds the substring, there it is. *)
Lemma Index_occurs (s substr : string) (i : nat) :
  strings.Index s substr = Some i ->
  s = str_take i s +:+ substr +:+ str_drop (i + String.length substr) s.
Proof.
  revert i. induction s as [|c s IH]; intros i; rewrite Index_unfold.
  - destruct (String.prefix substr "") eqn:Hp; [| discriminate].
    intros [= <-]. by apply prefix_split in Hp.
  - destruct (String.prefix substr (String c s)) eqn:Hp.
    + intros [= <-]. by apply prefix_split in Hp.
    + destruct (strings.Index s substr) as [j|] eqn:Hj; [| discriminate].
      intros [= <-]. simpl. rewrite str_app_cons. f_equal. by apply IH.
Qed.

(** A substring that occurs is found. *)
Lemma occurs_Index (p substr r : string) :
  is_Some (strings.Index (p +:+ substr +:+ r) substr).
Proof.
  induction p as [|c p IH].
  - rewrite str_app_nil_l, Index_unfold, prefix_app. by eexists.
  - rewrite str_app_cons, Index_unfold.
    destruct (String.prefix substr _); [by eexists |].
    destruct IH as [j ->]. by eexists.
Qed.

(** A string that lacks a piece lacks everything around that piece. *)
Lemma Index_absent_around (s x y z : string) :
  strings.Index s y = None -> strings.Index s (x +:+ y +:+ z) = None.
Proof.
  intros Hy. destruct (strings.Index s (x +:+ y +:+ z)) as [i|] eqn:Hi;
    [| reflexivity].
  apply Index_occurs in Hi.
  assert (is_Some (strings.Index s y)) as [j Hj]; [| congruence].
  rewrite Hi.
  replace (str_take i s +:+ (x +:+ y +:+ z)
           +:+ str_drop (i + String.length (x +:+ y +:+ z)) s)
    with ((str_take i s +:+ x) +:+ y
          +:+ (z +:+ str_drop (i + String.length (x +:+ y +:+ z)) s))
    by (by rewrite !str_app_assoc).
  apply occurs_Index.
Qed.

(** [Replace] returns a string unchanged in which [old] does not occur. *)
Lemma Replace_absent (s old new : string) (n : Z) :
  strings.Index s old = None -> strings.Replace s old new n = s.
Proof.
  intros Hold. unfold strings.Replace.
  destruct (bool_decide (old = new) || (n =? 0)); [reflexivity |].
  assert (strings.Count s old = O) as ->; [| reflexivity].
  unfold strings.Count. destruct old as [|c old].
  - rewrite Index_unfold, prefix_nil in Hold. discriminate.
  - destruct (String.length s); simpl; [reflexivity | by rewrite Hold].
Qed.

End OccurrenceFacts.

(** ** ProcessVar, SprintfDict and CheckHasVar *)
Section TemplateFacts.
Context `{GoRuntime}.

Lemma ProcessVar_absent (pattern key : string) (val : GoValue) :
  strings.Index pattern (placeholder key) = None ->
  str.ProcessVar pattern key val = pattern.
Proof. intros Habs. unfold str.ProcessVar. by apply Replace_absent. Qed.

Lemma fold_ProcessVar_absent (entries : list (string * GoValue)) (pattern : string) :
  (forall key val, (key, val) ∈ entries ->
                   strings.Index pattern (placeholder key) = None) ->
  fold_left (fun result kv => str.ProcessVar result kv.1 kv.2) entries pattern
  = pattern.
Proof.
  induction entries as [|[key val] entries IH]; intros Habs; [reflexivity |].
  simpl. rewrite ProcessVar_absent by (apply (Habs key val); by left).
  apply IH. intros k v Hin. apply (Habs k v). by right.
Qed.

(** When none of the keys met has its placeholder in the pattern,
    whatever the dictionary holds for them, [SprintfDict] returns the
    pattern unchanged. *)
Theorem SprintfDict_keys_absent (ord : MapOrder) (pattern : string)
    (dict : gmap string GoValue) :
  (forall key val, (key, val) ∈ ord dict ->
                   strings.Index pattern (placeholder key) = None) ->
  str.SprintfDict ord pattern dict = pattern.
Proof. intros Habs. by apply fold_ProcessVar_absent. Qed.

Lemma CheckHasVar_false_absent (s key : string) :
  str.CheckHasVar s = false -> strings.Index s (placeholder key) = None.
Proof.
  unfold str.CheckHasVar, strings.Contains, placeholder.
  intros [Hl|Hr]%andb_false_iff.
  - apply bool_decide_eq_false in Hl.
    apply (Index_absent_around s "" "${" (key +:+ "}")).
    destruct (strings.Index s "${"); [exfalso; eauto | reflexivity].
  - apply bool_decide_eq_false in Hr.
    replace (str.varPatternLeft +:+ key +:+ str.varPatternRight)
      with ((str.varPatternLeft +:+ key) +:+ "}" +:+ "")
      by (by rewrite str_app_nil_r, str_app_assoc).
    apply Index_absent_around.
    destruct (strings.Index s "}"); [exfalso; eauto | reflexivity].
Qed.

(** A string that [CheckHasVar] rejects is left unchanged by
    [SprintfDict], for every dictionary and every order. *)
Theorem SprintfDict_without_var (ord : MapOrder) (pattern : string)
    (dict : gmap string GoValue) :
  str.CheckHasVar pattern = false ->
  str.SprintfDict ord pattern dict = pattern.
Proof.
  intros Hno. apply fold_ProcessVar_absent.
  intros key val _. by apply CheckHasVar_false_absent.
Qed.

Lemma Contains_occurs (p substr r : string) :
  strings.Contains (p +:+ substr +:+ r) substr = true.
Proof. apply bool_decide_eq_true, occurs_Index. Qed.

(** [CheckHasVar] accepts every string that holds a placeholder. *)
Theorem CheckHasVar_placeholder (before key after : string) :
  str.CheckHasVar (before +:+ placeholder key +:+ after) = true.
Proof.
  unfold str.CheckHasVar, placeholder, str.varPatternLeft, str.varPatternRight.
  apply andb_true_iff. split.
  - replace (before +:+ ("${" +:+ key +:+ "}") +:+ after)
      with (before +:+ "${" +:+ (key +:+ "}" +:+ after))
      by (by rewrite !str_app_assoc).
    apply Contains_occurs.
  - replace (before +:+ ("${" +:+ key +:+ "}") +:+ after)
      with ((before +:+ "${" +:+ key) +:+ "}" +:+ after)
      by (by rewrite !str_app_assoc).
    apply Contains_occurs.
Qed.

End TemplateFacts.

(** A placeholder that is the whole pattern is replaced by what [fmt]
    prints for the value under [%s]: a string by itself, but nil by
    [%!s(<nil>)] and an [int] by [%!s(int=...)], not by what [ToString]
    gives for them. *)
Section WholePlaceholder.
Context `{GoRuntime}.

Lemma Index_self (c : ascii) (s : string) :
  strings.Index (String c s) (String c s) = Some O.
Proof.
  rewrite Index_unfold.
  replace (String c s) with (String c s +:+ "") at 2 by apply str_app_nil_r.
  by rewrite prefix_app.
Qed.

Lemma count_loop_S (fuel : nat) (s substr : string) :
  strings.count_loop (S fuel) s substr
  = match strings.Index s substr with
    | None => O
    | Some i =>
      S (strings.count_loop fuel (str_drop (i + String.length substr) s) substr)
    end.
Proof. reflexivity. Qed.

Lemma replace_loop_S (k : nat) (i_pos : bool) (s : string) (c : ascii)
    (old new : string) :
  strings.replace_loop (S k) i_pos s (String c old) new
  = match strings.Index s (String c old) with
    | None => s
    | Some j =>
      str_take j s +:+ new +:+
        strings.replace_loop k true
          (str_drop (j + String.length (String c old)) s) (String c old) new
    end.
Proof. reflexivity. Qed.

Lemma Replace_whole (c : ascii) (old new : string) :
  strings.Replace (String c old) (String c old) new (-1) = new.
Proof.
  unfold strings.Replace. case_bool_decide as Heq; [exact Heq |].
  change (false || (-1 =? 0)) with false. cbn iota.
  change (strings.Count (String c old) (String c old))
    with (strings.count_loop (S (String.length old)) (String c old) (String c old)).
  change ((-1 <? 0) || _) with true. cbn iota.
  remember (String c old) as s eqn:Hs.
  assert (strings.Index s s = Some O) as Hself by (subst s; apply Index_self).
  assert (str_drop (0 + String.length s) s = "") as Hdrop.
  { rewrite <- (str_app_nil_r s) at 2. apply str_drop_app. }
  assert (forall fuel, strings.count_loop fuel "" s = O) as Hnil.
  { intros [|fuel]; [reflexivity |]. rewrite count_loop_S.
    subst s. reflexivity. }
  rewrite count_loop_S, Hself, Hdrop, Hnil. simpl Nat.eqb. cbn iota.
  subst s. rewrite replace_loop_S. rewrite Hself, Hdrop. simpl.
  apply str_app_nil_r.
Qed.

(** On a pattern that is one placeholder, [ProcessVar] of its key returns
    what the verb [%s] prints for the value: the value itself for a
    string, and the report of a bad verb for nil and for an [int]. *)
Theorem ProcessVar_whole_placeholder (key : string) (val : GoValue) :
  str.ProcessVar (placeholder key) key val = fmt.Sprintf_s val
  /\ (forall v : string, str.ProcessVar (placeholder key) key (VString v) = v)
  /\ str.ProcessVar (placeholder key) key VNil = "%!s(<nil>)"
  /\ (forall v : Z, str.ProcessVar (placeholder key) key (VInt v)
                    = "%!s(int=" +:+ strconv.Itoa v +:+ ")").
Proof.
  assert (forall val', str.ProcessVar (placeholder key) key val' = fmt.Sprintf_s val')
    as Hall.
  { intros val'. unfold str.ProcessVar, placeholder, str.varPatternLeft.
    change ("${" +:+ key +:+ str.varPatternRight)
      with (String "$" ("{" +:+ key +:+ str.varPatternRight)).
    apply Replace_whole. }
  repeat split; intros; rewrite Hall; reflexivity.
Qed.

End WholePlaceholder.

(** ** ConvertDollarPlaceholder: what the result holds *)
Section ConvertResultFacts.

Lemma string_of_uint_no_dollar (d : Decimal.uint) :
  count_byte "$" (NilEmpty.string_of_uint d) = O.
Proof. induction d; simpl; try reflexivity; exact IHd. Qed.

Lemma Sprintf_dollar_d_one_dollar (n : Z) :
  count_byte "$" (fmt.Sprintf_dollar_d n) = 1%nat.
Proof.
  unfold fmt.Sprintf_dollar_d, strconv.FormatInt10.
  rewrite count_byte_app. simpl count_byte at 1.
  destruct (Z.to_int n) as [d|d]; simpl; unfold NilZero.string_of_uint;
    destruct d; simpl; rewrite ?string_of_uint_no_dollar; reflexivity.
Qed.

Lemma dollar_wrapping_counts (s : string) (n : Z) :
  count_byte "?" (str.dollar_wrapping s n) = O
  /\ count_byte "$" (str.dollar_wrapping s n)
     = (count_byte "$" s + count_byte "?" s)%nat.
Proof.
  revert n. induction s as [|c s IH]; intros n; [by split |].
  simpl. destruct (decide (c = "?"%char)) as [->|Hc].
  - rewrite !(bool_decide_true ("?"%char = "?"%char)) by reflexivity.
    rewrite (bool_decide_false ("?"%char = "$"%char)) by discriminate.
    rewrite !count_byte_app, Sprintf_dollar_d_no_qmark, Sprintf_dollar_d_one_dollar.
    destruct (IH (to_int (n + 1))) as [-> ->]. split; lia.
  - rewrite !(bool_decide_false (c = "?"%char)) by exact Hc.
    simpl. rewrite !(bool_decide_false (c = "?"%char)) by exact Hc.
    destruct (IH n) as [-> ->]. split; lia.
Qed.

(** For "postgres" the function returns a string without question mark,
    in which every question mark of the input has given one dollar sign,
    and which the function returns unchanged when it is applied again. *)
Theorem ConvertDollarPlaceholder_postgres_result (sql : string) :
  exists result,
    str.ConvertDollarPlaceholder sql "postgres" = Some result
    /\ count_byte "?" result = O
    /\ count_byte "$" result = (count_byte "$" sql + count_byte "?" sql)%nat
    /\ str.ConvertDollarPlaceholder result "postgres" = Some result.
Proof.
  exists (str.dollar_wrapping sql 1).
  destruct (dollar_wrapping_counts sql 1) as [Hq Hd].
  rewrite !ConvertDollarPlaceholder_fuel_enough. simpl.
  repeat split; try assumption.
  by rewrite dollar_wrapping_no_qmark.
Qed.

End ConvertResultFacts.

(** ** ToString on integers *)
Section ToStringFacts.
Context `{GoRuntime}.

Lemma read_decimal_FormatInt10 (v : Z) :
  read_decimal (strconv.FormatInt10 v) = Some v.
Proof.
  unfold read_decimal, strconv.FormatInt10.
  rewrite NilZero.isi.
  - simpl. by rewrite DecimalZ.of_to.
  - destruct v; simpl; try discriminate.
    intros [= Hp]. by apply DecimalPos.Unsigned.to_uint_nonnil in Hp.
  - destruct v; simpl; try discriminate.
    intros [= Hp]. by apply DecimalPos.Unsigned.to_uint_nonnil in Hp.
Qed.

(** For an [int] or an [int64], [ToString] returns a string that reads
    back as the same number, so two different numbers are never printed
    alike. *)
Theorem ToString_int_reads_back (v w : Z) :
  (exists s, str.ToString (VInt v) = Ret s /\ read_decimal s = Some v)
  /\ (exists s, str.ToString (VInt64 v) = Ret s /\ read_decimal s = Some v)
  /\ (str.ToString (VInt64 v) = str.ToString (VInt64 w) -> v = w).
Proof.
  split; [eexists; split; [reflexivity | apply read_decimal_FormatInt10] |].
  split; [eexists; split; [reflexivity | apply read_decimal_FormatInt10] |].
  simpl. intros [= Heq].
  pose proof (read_decimal_FormatInt10 v) as Hv.
  rewrite Heq, read_decimal_FormatInt10 in Hv. congruence.
Qed.

(** A [uint] goes through [int]: below 2^63 it is printed like the
    [uint64] of the same value, from 2^63 on as the negative number it
    wraps to. *)
Theorem ToString_uint_through_int (v : Z) :
  0 <= v < 2 ^ 64 ->
  str.ToString (VUint v)
  = str.ToString (VInt64 (if v <? 2 ^ 63 then v else v - 2 ^ 64))
  /\ (v < 2 ^ 63 -> str.ToString (VUint v) = str.ToString (VUint64 v))
  /\ (2 ^ 63 <= v -> str.ToString (VUint v) <> str.ToString (VUint64 v)).
Proof.
  intros Hv.
  assert (to_int v = if v <? 2 ^ 63 then v else v - 2 ^ 64) as Hto.
  { unfold to_int. destruct (Z.ltb_spec v (2 ^ 63)).
    - rewrite Z.mod_small by lia. lia.
    - replace (v + 2 ^ 63) with (v - 2 ^ 63 + 1 * 2 ^ 64) by lia.
      rewrite Z.mod_add by lia. rewrite Z.mod_small by lia. lia. }
  assert (str.ToString (VUint v) = Ret (strconv.FormatInt10 (to_int v))) as Hu
    by reflexivity.
  assert (str.ToString (VUint64 v) = Ret (strconv.FormatInt10 v)) as Hu64
    by reflexivity.
  assert (forall z, str.ToString (VInt64 z) = Ret (strconv.FormatInt10 z)) as H64
    by reflexivity.
  rewrite Hu, Hu64, H64, Hto. split; [reflexivity |]. split.
  - intros Hlt. destruct (Z.ltb_spec v (2 ^ 63)); [reflexivity | lia].
  - intros Hge [= Heq]. destruct (Z.ltb_spec v (2 ^ 63)); [lia |].
    apply (f_equal read_decimal) in Heq.
    rewrite !read_decimal_FormatInt10 in Heq. injection Heq as Heq. lia.
Qed.

End ToStringFacts.

Lemma ToString_uint_through_int_witness :
  str.ToString (H:=example.runtime) (VUint (2 ^ 64 - 1)) = Ret "-1"
  /\ str.ToString (H:=example.runtime) (VUint64 (2 ^ 64 - 1))
     = Ret "18446744073709551615".
Proof.
  destruct (ToString_uint_through_int (H:=example.runtime) (2 ^ 64 - 1))
    as (Hint & _ & _); [lia |].
  split; [rewrite Hint |]; reflexivity.
Defined.

(** ** RemoveBraces *)
Section RemoveBracesFacts.

Lemma string_of_byte_keeps_out (c : ascii) :
  (c = "}"%char \/ count_byte "}" (str.string_of_byte c) = O)
  /\ (c = " "%char \/ count_byte " " (str.string_of_byte c) = O).
Proof.
  destruct c as [[] [] [] [] [] [] [] []];
    (split; [first [by left | by right] | first [by left | by right]]).
Qed.

(** The loop with what it has built so far: no closing brace and no
    space comes into the result. *)
Lemma remove_loop_keeps_out (n : nat) (s result : string) :
  (String.length s <= n)%nat ->
  count_byte "}" result = O -> count_byte " " result = O ->
  count_byte "}" (str.remove_loop s result) = O
  /\ count_byte " " (str.remove_loop s result) = O.
Proof.
  revert s result. induction n as [|n IH]; intros s result Hn Hb Hs.
  { destruct s; [by split | simpl in Hn; lia]. }
  destruct s as [|c s]; [by split |]. simpl in Hn.
  assert (forall c', c' <> "}"%char -> c' <> " "%char ->
            count_byte "}" (str.remove_loop s (result +:+ str.string_of_byte c')) = O
            /\ count_byte " " (str.remove_loop s (result +:+ str.string_of_byte c')) = O)
    as Happend.
  { intros c' Hc1 Hc2.
    destruct (string_of_byte_keeps_out c') as [[?|Hk1] [?|Hk2]]; try contradiction.
    apply IH; [lia | |]; rewrite count_byte_app; lia. }
  cbn [str.remove_loop].
  destruct (decide (c = "$"%char)) as [->|Hdollar].
  - rewrite (bool_decide_true ("$"%char = "$"%char)) by reflexivity.
    rewrite !(bool_decide_false ("$"%char = "}"%char)) by discriminate.
    rewrite !(bool_decide_false ("$"%char = " "%char)) by discriminate.
    destruct s as [|c1 s]; [by apply Happend |].
    destruct (decide (c1 = "{"%char)) as [->|Hc1].
    + rewrite bool_decide_true by reflexivity.
      apply IH; [simpl in Hn; lia | assumption..].
    + rewrite bool_decide_false by exact Hc1. by apply Happend.
  - rewrite (bool_decide_false (c = "$"%char)) by exact Hdollar.
    destruct (decide (c = "}"%char)) as [->|Hbrace].
    { rewrite bool_decide_true by reflexivity. apply IH; [lia | assumption..]. }
    rewrite (bool_decide_false (c = "}"%char)) by exact Hbrace.
    destruct (decide (c = " "%char)) as [->|Hspace].
    { rewrite bool_decide_true by reflexivity. apply IH; [lia | assumption..]. }
    rewrite (bool_decide_false (c = " "%char)) by exact Hspace.
    by apply Happend.
Qed.

(** The result of [RemoveBraces] holds no closing brace and no space. *)
Theorem RemoveBraces_no_brace_no_space (s : string) :
  count_byte "}" (str.RemoveBraces s) = O
  /\ count_byte " " (str.RemoveBraces s) = O.
Proof. by apply (remove_loop_keeps_out (String.length s)). Qed.

Lemma remove_loop_plain (key rest result : string) :
  plain key = true ->
  str.remove_loop (key +:+ rest) result = str.remove_loop rest (result +:+ key).
Proof.
  revert result. induction key as [|c key IH]; intros result Hplain.
  - by rewrite str_app_nil_l, str_app_nil_r.
  - simpl in Hplain.
    apply andb_true_iff in Hplain as [Hc Hkey].
    apply andb_true_iff in Hc as [Hc Hsp].
    apply andb_true_iff in Hc as [Hc Hbr].
    apply andb_true_iff in Hc as [Hascii Hdo].
    apply negb_true_iff, bool_decide_eq_false in Hsp, Hbr, Hdo.
    rewrite str_app_cons. cbn [str.remove_loop].
    rewrite !bool_decide_false by assumption.
    rewrite IH by exact Hkey.
    unfold str.string_of_byte. rewrite Hascii.
    by rewrite str_app_assoc.
Qed.

(** A placeholder gives its key back, and a plain string is returned
    unchanged. *)
Theorem RemoveBraces_placeholder (key : string) :
  plain key = true ->
  str.RemoveBraces (placeholder key) = key /\ str.RemoveBraces key = key.
Proof.
  intros Hplain. unfold str.RemoveBraces. split.
  - change (placeholder key) with (String "$" (String "{" (key +:+ "}"))).
    cbn [str.remove_loop]. rewrite !bool_decide_true by reflexivity.
    rewrite remove_loop_plain by exact Hplain. reflexivity.
  - rewrite <- (str_app_nil_r key) at 1.
    rewrite remove_loop_plain by exact Hplain. reflexivity.
Qed.

End RemoveBracesFacts.

Lemma RemoveBraces_placeholder_witness :
  str.RemoveBraces "${deviceName}" = "deviceName"
  /\ str.RemoveBraces "deviceName" = "deviceName".
Proof. apply (RemoveBraces_placeholder "deviceName"). reflexivity. Defined.

(** ** RandomStr *)
Section RandomStrFacts.
Variable rand_Intn : nat -> Z -> Z.
(** [rand.Intn(n)] returns a number from 0 up to [n], [n] excluded. *)
Hypothesis rand_Intn_range : forall k n, 0 < n -> 0 <= rand_Intn k n < n.

Lemma get_counted (n : nat) (s : string) :
  (n < String.length s)%nat ->
  exists c, String.get n s = Some c /\ (0 < count_byte c s)%nat.
Proof.
  revert n. induction s as [|b s IH]; intros n Hn; simpl in Hn; [lia |].
  destruct n as [|n]; simpl.
  - exists b. split; [reflexivity |]. rewrite bool_decide_true by reflexivity. lia.
  - destruct (IH n) as (c & Hget & Hc); [lia |].
    exists c. split; [exact Hget | lia].
Qed.

Lemma random_loop_returns (n calls : nat) (builder : string) :
  exists drawn,
    str.random_loop rand_Intn calls n builder = Ret (builder +:+ drawn)
    /\ String.length drawn = n
    /\ forall c, (0 < count_byte c drawn)%nat ->
                 (0 < count_byte c str.randomStrOptions)%nat.
Proof.
  revert calls builder. induction n as [|n IH]; intros calls builder.
  - exists "". rewrite str_app_nil_r. repeat split. simpl. lia.
  - cbn [str.random_loop].
    pose proof (rand_Intn_range calls str.randomStrOptionsLen eq_refl) as Hk.
    destruct (Z.ltb_spec (rand_Intn calls str.randomStrOptionsLen) 0); [lia |].
    destruct (Z.leb_spec str.randomStrOptionsLen
                         (rand_Intn calls str.randomStrOptionsLen)); [lia |].
    cbn [orb].
    destruct (get_counted (Z.to_nat (rand_Intn calls str.randomStrOptionsLen))
                          str.randomStrOptions) as (c & -> & Hc).
    { unfold str.randomStrOptionsLen in *. lia. }
    destruct (IH (S calls) (builder +:+ String c "")) as (drawn & -> & Hlen & Hin).
    exists (String c drawn). rewrite str_app_assoc. split; [reflexivity |].
    split; [simpl; lia |].
    intros b Hb. simpl in Hb. case_bool_decide; [by subst | apply Hin; lia].
Qed.

(** [RandomStr(num)] returns [num] bytes, each a letter or a digit of
    [randomStrOptions], and the empty string for a [num] that is not
    positive; it never indexes out of bounds. *)
Theorem RandomStr_length_alphabet (num : Z) :
  exists s,
    str.RandomStr rand_Intn num = Ret s
    /\ String.length s = Z.to_nat num
    /\ (num <= 0 -> s = "")
    /\ forall c, (0 < count_byte c s)%nat ->
                 (0 < count_byte c str.randomStrOptions)%nat.
Proof.
  destruct (random_loop_returns (Z.to_nat num) O "") as (s & Hs & Hlen & Hin).
  exists s. rewrite str_app_nil_l in Hs. repeat split; try assumption.
  intros Hnum. destruct s; [reflexivity |]. simpl in Hlen. lia.
Qed.

End RandomStrFacts.

Lemma RandomStr_length_alphabet_witness :
  exists s,
    str.RandomStr (fun k n => Z.of_nat k mod n) 5 = Ret s
    /\ String.length s = Z.to_nat 5
    /\ (5 <= 0 -> s = "")
    /\ forall c, (0 < count_byte c s)%nat ->
                 (0 < count_byte c str.randomStrOptions)%nat.
Proof.
  apply (RandomStr_length_alphabet (fun k n => Z.of_nat k mod n)).
  intros k n Hn. apply Z.mod_pos_bound. lia.
Defined.

(** ** ToStringMapString *)
Section ToStringMapStringFacts.
Context `{GoRuntime}.
Variable ord_strings : gmap string string -> list (string * string).
Variable ord : MapOrder.
Variable json_Unmarshal : string -> gmap string GoValue.

Lemma lookup_fold_insert {A : Type} (g : A -> GoValue) (l : list (string * A))
    (output : gmap string GoValue) (k : string) :
  NoDup (l.*1) ->
  fold_left (fun output kv => <[kv.1 := g kv.2]> output) l output !! k
  = match (list_to_map l : gmap string A) !! k with
    | Some a => Some (g a)
    | None => output !! k
    end.
Proof.
  revert output. induction l as [|[k1 a1] l IH]; intros output Hdup.
  - reflexivity.
  - rewrite fmap_cons in Hdup. apply NoDup_cons in Hdup as [Hk1 Hdup].
    cbn [fst] in Hk1. cbn [fold_left fst snd]. rewrite IH by exact Hdup.
    change (list_to_map ((k1, a1) :: l))
      with (<[k1:=a1]> (list_to_map l : gmap string A)).
    destruct (decide (k = k1)) as [->|Hne].
    + rewrite (not_elem_of_list_to_map_1 l k1) by exact Hk1.
      by rewrite !lookup_insert_eq.
    + by rewrite !lookup_insert_ne by congruence.
Qed.

(** Filling the output entry by entry gives the map with the same keys,
    in whatever order the entries of a map are met. *)
Lemma fold_insert_fmap {A : Type} (g : A -> GoValue) (l : list (string * A))
    (m : gmap string A) :
  l ≡ₚ map_to_list m ->
  fold_left (fun output kv => <[kv.1 := g kv.2]> output) l ∅ = g <$> m.
Proof.
  intros Hperm.
  assert (NoDup (l.*1)) as Hdup
    by (rewrite Hperm; apply NoDup_fst_map_to_list).
  apply map_eq. intros k. rewrite lookup_fold_insert by exact Hdup.
  rewrite (list_to_map_proper l (map_to_list m)) by assumption.
  rewrite list_to_map_to_list, lookup_fmap, lookup_empty.
  by destruct (m !! k).
Qed.

Lemma ToString_cases (x : GoValue) :
  (exists s, str.ToString x = Ret s) \/ (exists reason, str.ToString x = Panic reason).
Proof.
  destruct x; try (left; by eexists);
    try (left; simpl; destruct (json_Marshal _); by eexists).
  destruct o as [[[s|reason]|] [[e|reason']|]]; simpl;
    try (left; by eexists); try (right; by eexists);
    left; destruct (json_Marshal _); by eexists.
Qed.

Lemma fold_put_Panic (l : list (string * GoValue)) (reason : string) :
  fold_left (fun output kv => str.put output (VString kv.1) kv.2) l (Panic reason)
  = Panic reason.
Proof. induction l as [|kv l IH]; [reflexivity | exact IH]. Qed.

(** The loop over a map with values of any type: either [ToString]
    returns for every value and the loop fills the output, or it panics
    as [ToString] does on one of the values. *)
Lemma fold_put_cases (l : list (string * GoValue)) (output : gmap string GoValue) :
  (Forall (fun kv => exists s, str.ToString kv.2 = Ret s) l
   /\ fold_left (fun output kv => str.put output (VString kv.1) kv.2) l (Ret output)
      = Ret (fold_left (fun output kv =>
                          <[kv.1 := VString (returned (str.ToString kv.2))]> output)
                       l output))
  \/ (exists reason kv,
        kv ∈ l /\ str.ToString kv.2 = Panic reason
        /\ fold_left (fun output kv => str.put output (VString kv.1) kv.2) l
             (Ret output) = Panic reason).
Proof.
  revert output. induction l as [|[k x] l IH]; intros output.
  - left. split; [constructor | reflexivity].
  - cbn [fold_left fst snd].
    destruct (ToString_cases x) as [[s Hs]|[reason Hreason]].
    + assert (str.put (Ret output) (VString k) x = Ret (<[k := VString s]> output))
        as -> by (unfold str.put; simpl; by rewrite Hs).
      destruct (IH (<[k := VString s]> output))
        as [[Hall Hfold]|(reason & kv & Hin & Hkv & Hfold)].
      * left. split; [constructor; [by exists s | exact Hall] |].
        rewrite Hfold, Hs. reflexivity.
      * right. exists reason, kv. split; [by right | by split].
    + assert (str.put (Ret output) (VString k) x = Panic reason)
        as -> by (unfold str.put; simpl; by rewrite Hreason).
      right. exists reason, (k, x).
      split; [by left | split; [exact Hreason | apply fold_put_Panic]].
Qed.

Lemma fold_put_strings (l : list (string * string)) (output : gmap string GoValue) :
  fold_left (fun output kv => str.put output (VString kv.1) (VString kv.2)) l
    (Ret output)
  = Ret (fold_left (fun output kv => <[kv.1 := VString kv.2]> output) l output).
Proof.
  revert output. induction l as [|[k x] l IH]; intros output; [reflexivity |].
  cbn [fold_left fst snd]. rewrite <- IH. reflexivity.
Qed.

(** On a map with string keys the result does not depend on the order of
    the [range].  A [map[string]string] gives the map with the same
    entries.  A [map[string]interface{}] gives, when [ToString] returns
    for each of its values, the map with the same keys and these
    strings, and the function panics when [ToString] panics on one of
    the values.  Applied to a result it has returned the function
    returns it again.  Any input other than a map or a string gives the
    empty map. *)
Theorem ToStringMapString_string_keys :
  (forall m, ord_strings m ≡ₚ map_to_list m) -> valid_order ord ->
  (forall v, str.ToStringMapString ord_strings ord json_Unmarshal
               (str.InMapStringString v) = Ret (VString <$> v))
  /\ (forall (v : gmap string GoValue) (printed : gmap string string),
        (forall k, str.ToString <$> (v !! k) = Ret <$> (printed !! k)) ->
        str.ToStringMapString ord_strings ord json_Unmarshal
          (str.InMapStringAny v) = Ret (VString <$> printed))
  /\ (forall (v : gmap string GoValue) k x reason,
        v !! k = Some x -> str.ToString x = Panic reason ->
        exists reason',
          str.ToStringMapString ord_strings ord json_Unmarshal
            (str.InMapStringAny v) = Panic reason')
  /\ (forall v output,
        str.ToStringMapString ord_strings ord json_Unmarshal
          (str.InMapStringAny v) = Ret output ->
        str.ToStringMapString ord_strings ord json_Unmarshal
          (str.InMapStringAny output) = Ret output)
  /\ str.ToStringMapString ord_strings ord json_Unmarshal str.InOther = Ret ∅.
Proof.
  intros Hord_strings Hord.
  assert (forall (v : gmap string GoValue) kv, kv ∈ ord v -> v !! kv.1 = Some kv.2)
    as Hin.
  { intros v [k x] Hkv. rewrite (Hord v) in Hkv.
    by apply elem_of_map_to_list in Hkv. }
  assert (forall v output,
            str.ToStringMapString ord_strings ord json_Unmarshal
              (str.InMapStringAny v) = Ret output ->
            output = (fun x => VString (returned (str.ToString x))) <$> v) as Hret.
  { intros v output. unfold str.ToStringMapString.
    destruct (fold_put_cases (ord v) ∅)
      as [[_ ->]|(reason & kv & _ & _ & ->)]; [| discriminate].
    intros [= <-].
    apply (fold_insert_fmap (fun x => VString (returned (str.ToString x)))), Hord. }
  assert (forall (v : gmap string GoValue) (printed : gmap string string),
            (forall k, str.ToString <$> (v !! k) = Ret <$> (printed !! k)) ->
            str.ToStringMapString ord_strings ord json_Unmarshal
              (str.InMapStringAny v) = Ret (VString <$> printed)) as Hany.
  { intros v printed Hprinted.
    assert (VString <$> printed
            = (fun x => VString (returned (str.ToString x))) <$> v) as ->.
    { apply map_eq. intros k. rewrite !lookup_fmap.
      specialize (Hprinted k).
      destruct (v !! k) as [x|], (printed !! k) as [s|]; simpl in *;
        try discriminate; [| reflexivity].
      injection Hprinted as ->. reflexivity. }
    unfold str.ToStringMapString.
    destruct (fold_put_cases (ord v) ∅)
      as [[_ ->]|(reason & kv & Hkv & Hpanic & _)].
    - f_equal.
      apply (fold_insert_fmap (fun x => VString (returned (str.ToString x)))), Hord.
    - apply Hin in Hkv. specialize (Hprinted kv.1). rewrite Hkv in Hprinted.
      destruct (printed !! kv.1); simpl in Hprinted; [| discriminate].
      injection Hprinted as Hprinted. congruence. }
  split; [| split; [exact Hany | split; [| split; [| reflexivity]]]].
  - intros v. unfold str.ToStringMapString. rewrite fold_put_strings. f_equal.
    apply (fold_insert_fmap VString), Hord_strings.
  - intros v k x reason Hk Hpanic. unfold str.ToStringMapString.
    destruct (fold_put_cases (ord v) ∅)
      as [[Hall _]|(reason' & kv & _ & _ & ->)]; [| by eexists].
    rewrite Forall_forall in Hall.
    destruct (Hall (k, x)) as [s Hs]; [| simpl in Hs; congruence].
    rewrite (Hord v). by apply elem_of_map_to_list.
  - intros v output Hout. apply Hret in Hout. subst output.
    transitivity
      (Ret (A:=gmap string GoValue)
           (VString <$> ((fun x => returned (str.ToString x)) <$> v))).
    + apply Hany. intros k. rewrite !lookup_fmap. by destruct (v !! k).
    + f_equal. by rewrite <- map_fmap_compose.
Qed.

End ToStringMapStringFacts.

Lemma ToStringMapString_string_keys_witness :
  str.ToStringMapString (H:=example.runtime) map_to_list example.forwards
    (fun _ => ∅) (str.InMapStringAny (<["n" := VInt 5]> (<["s" := VString "x"]> ∅)))
  = Ret (VString <$> (<["n" := "5"]> (<["s" := "x"]> ∅))).
Proof.
  destruct (ToStringMapString_string_keys (H:=example.runtime) map_to_list
              example.forwards (fun _ => ∅)) as (_ & Hany & _).
  - intros m. reflexivity.
  - apply forwards_valid.
  - apply Hany. intros k.
    destruct (decide (k = "n")) as [->|Hn]; [reflexivity |].
    destruct (decide (k = "s")) as [->|Hs]; [reflexivity |].
    by rewrite !lookup_insert_ne, !lookup_empty by congruence.
Defined.

(** ** Options of the configuration *)
Section OptionFacts.
Import types.
Context {DebugFunc EndFunc OtherPool ComponentRegistry ParserI LoggerI : Type}.
Variable DefaultLogger : LoggerI.

Abbreviation Cfg :=
  (Config DebugFunc EndFunc OtherPool ComponentRegistry ParserI LoggerI).
Abbreviation Opt :=
  (Option DebugFunc EndFunc OtherPool ComponentRegistry ParserI LoggerI).

Lemma NewConfig_snoc (opts : list Opt) (opt : Opt) :
  NewConfig DefaultLogger (opts ++ [opt])
  = fst (opt (NewConfig DefaultLogger opts)).
Proof. unfold NewConfig. by rewrite fold_left_app. Qed.

(** The options are applied in order: whatever comes before, the last
    option decides the field it assigns. *)
Theorem NewConfig_last_option_wins (opts : list Opt) :
  (forall d, JsMaxExecutionTime
               (NewConfig DefaultLogger (opts ++ [WithJsMaxExecutionTime d])) = d)
  /\ (forall p, Pool (NewConfig DefaultLogger (opts ++ [WithPool p])) = p)
  /\ pool_cap (NewConfig DefaultLogger (opts ++ [WithDefaultPool])) = Some MaxInt32
  /\ (forall l, Logger (NewConfig DefaultLogger (opts ++ [WithLogger l])) = l).
Proof. repeat split; intros; by rewrite NewConfig_snoc. Qed.

Lemma assigns_frame (f f' : Field) (opt : Opt) (c : Cfg) :
  assigns f' opt -> f' <> f ->
  snd (opt c) = None /\ same_field f c (fst (opt c)).
Proof. destruct 1, f; intros Hne; split; try reflexivity; congruence. Qed.

Lemma same_field_trans (f : Field) (c1 c2 c3 : Cfg) :
  same_field f c1 c2 -> same_field f c2 c3 -> same_field f c1 c3.
Proof. destruct f; simpl; congruence. Qed.

Lemma fold_options_frame (f : Field) (opts : list Opt) (c : Cfg) :
  none_assigns f opts ->
  same_field f c (fold_left (fun c opt => fst (opt c)) opts c).
Proof.
  intros Hnone. revert c. induction Hnone as [|opt opts (f' & Hopt & Hne) _ IH];
    intros c; [by destruct f |].
  simpl. eapply same_field_trans; [| apply IH].
  by destruct (assigns_frame f f' opt c Hopt Hne).
Qed.

(** An option changes no field but its own: when none of the options
    given assigns a field, [NewConfig] leaves that field at its default,
    which is 2000 ms for the script time, the default logger for the
    logger and nil for every other field. *)
Theorem NewConfig_untouched_default (f : Field) (opts : list Opt) :
  none_assigns f opts ->
  let c := NewConfig DefaultLogger opts in
  match f with
  | FOnDebug => OnDebug c = None
  | FOnEnd => OnEnd c = None
  | FJsMaxExecutionTime => JsMaxExecutionTime c = 2000 * time.Millisecond
  | FPool => Pool c = None
  | FComponentsRegistry => ComponentsRegistry c = None
  | FParser => Parser c = None
  | FLogger => Logger c = Some DefaultLogger
  end.
Proof.
  intros Hnone. unfold NewConfig.
  pose proof (fold_options_frame f opts
        {| OnDebug := None; OnEnd := None;
           JsMaxExecutionTime := time.Millisecond * 2000; Pool := None;
           ComponentsRegistry := None; Parser := None;
           Logger := Some DefaultLogger |} Hnone) as Hsame.
  destruct f; exact Hsame.
Qed.

End OptionFacts.

Lemma NewConfig_untouched_default_witness :
  types.JsMaxExecutionTime
    (types.NewConfig (DebugFunc:=unit) (EndFunc:=unit) (OtherPool:=unit)
       (ComponentRegistry:=unit) (ParserI:=unit) (LoggerI:=unit) tt
       [types.WithDefaultPool; types.WithLogger None])
  = 2000 * time.Millisecond.
Proof.
  apply (NewConfig_untouched_default (DebugFunc:=unit) (EndFunc:=unit)
           (OtherPool:=unit) (ComponentRegistry:=unit) (ParserI:=unit)
           (LoggerI:=unit) tt types.FJsMaxExecutionTime
           [types.WithDefaultPool; types.WithLogger None]).
  repeat constructor.
  - exists types.FPool. split; [constructor | discriminate].
  - exists types.FLogger. split; [constructor | discriminate].
Defined.

(** ** The database client node: Init and OnMsg together *)
Section NodeFacts.
Import action types.
Context `{GoRuntime}.
Variable Map2Struct :
  gmap string GoValue -> DbClientNodeConfiguration ->
  DbClientNodeConfiguration * option GoError.
Variable sql_Open : string -> string -> GoError + sql.DB.

Lemma OnMsg_unfold (ords : nat -> MapOrder) (x : DbClientNode) (msg : RuleMsg) :
  OnMsg ords x msg
  = match run_op x (sent_sql ords x msg) (sent_params ords x msg) with
    | Panic r => Panic r
    | OutOfFuel => OutOfFuel
    | Ret (data, rowsAffected, lastInsertId, err) =>
      match err with
      | Some e => Ret ([TellFailure msg err], err)
      | None =>
        let msg :=
          if bool_decide (opType x = SELECT) then
            and_then (str.ToString data) (fun printed =>
            Ret (set_Data printed msg))
          else if bool_decide (opType x = UPDATE) || bool_decide (opType x = DELETE) then
            Ret (PutValue rowsAffectedKey (strconv.FormatInt10 rowsAffected) msg)
          else if bool_decide (opType x = INSERT) then
            Ret (PutValue lastInsertIdKey (strconv.FormatInt10 lastInsertId)
                   (PutValue rowsAffectedKey (strconv.FormatInt10 rowsAffected) msg))
          else Ret msg in
        and_then msg (fun msg => Ret ([TellSuccess msg], err))
      end
    end.
Proof. reflexivity. Qed.

(** A node whose [opType] is none of the four, such as a node that was
    never initialised, fails every message with "unsupported sql
    statement" and the statement; it does not touch its database handle,
    so it does not panic even when the handle is nil. *)
Theorem OnMsg_unsupported (ords : nat -> MapOrder) (x : DbClientNode)
    (msg : RuleMsg) :
  supported (opType x) = false ->
  let err := Some (fmt.Errorf_unsupported (sent_sql ords x msg)) in
  OnMsg ords x msg = Ret ([TellFailure msg err], err).
Proof.
  intros Hop. rewrite OnMsg_unfold. unfold run_op, supported in *.
  repeat case_bool_decide; simpl in Hop; try discriminate. reflexivity.
Qed.

(** [Init] when the bag decodes and the handle opens, for a statement
    with a first word: the node it leaves and the error it returns. *)
Lemma Init_opened (x : DbClientNode) (bag : gmap string GoValue)
    (cfg : DbClientNodeConfiguration) (d : sql.DB)
    (word0 : string) (words : list string) :
  Map2Struct bag (config x) = (cfg, None) ->
  sql_Open (DbType (defaulted cfg)) (Dsn (defaulted cfg)) = inr d ->
  strings.Fields (Sql cfg) = word0 :: words ->
  Init Map2Struct sql_Open x bag
  = ({| config :=
          set_Sql (if bool_decide (DbType (defaulted cfg) = "postgres")
                   then str.dollar_wrapping (Sql cfg) 1 else Sql cfg)
                  (defaulted cfg);
        db := Some d; opType := ToUpper word0;
        paramsHasVar := paramsHasVar x || existsb has_var (Params (defaulted cfg)) |},
     Ret (if supported (ToUpper word0) then sql.Ping d
          else Some (fmt.Errorf_unsupported (Sql cfg)))).
Proof.
  intros Hdec Hopen Hwords. unfold Init. rewrite Hdec.
  fold (defaulted cfg). rewrite Hopen, Sql_defaulted, Hwords.
  rewrite ConvertDollarPlaceholder_fuel_enough. reflexivity.
Qed.

(** For a statement whose first word is SELECT, UPDATE, INSERT or
    DELETE in any case of letters, [Init] returns exactly what the ping
    of the opened handle returned. *)
Theorem Init_supported_returns_ping (x : DbClientNode)
    (bag : gmap string GoValue) (cfg : DbClientNodeConfiguration) (d : sql.DB)
    (word0 : string) (words : list string) :
  Map2Struct bag (config x) = (cfg, None) ->
  sql_Open (DbType (defaulted cfg)) (Dsn (defaulted cfg)) = inr d ->
  strings.Fields (Sql cfg) = word0 :: words ->
  supported (ToUpper word0) = true ->
  snd (Init Map2Struct sql_Open x bag) = Ret (sql.Ping d)
  /\ db (fst (Init Map2Struct sql_Open x bag)) = Some d
  /\ opType (fst (Init Map2Struct sql_Open x bag)) = ToUpper word0.
Proof.
  intros Hdec Hopen Hwords Hop.
  rewrite (Init_opened x bag cfg d word0 words Hdec Hopen Hwords), Hop.
  by repeat split.
Qed.

(** Inversion of [Init]: when it returns at all, one of the three ways
    it can return has been taken. *)
Lemma Init_returns_inv (x : DbClientNode) (bag : gmap string GoValue)
    (err : option GoError) :
  snd (Init Map2Struct sql_Open x bag) = Ret err ->
  (exists cfg e, Map2Struct bag (config x) = (cfg, Some e) /\ err = Some e)
  \/ (exists cfg e, Map2Struct bag (config x) = (cfg, None)
                    /\ sql_Open (DbType (defaulted cfg)) (Dsn (defaulted cfg)) = inl e
                    /\ err = Some e)
  \/ (exists cfg d word0 words,
         Map2Struct bag (config x) = (cfg, None)
         /\ sql_Open (DbType (defaulted cfg)) (Dsn (defaulted cfg)) = inr d
         /\ strings.Fields (Sql cfg) = word0 :: words).
Proof.
  intros Hret. destruct (Map2Struct bag (config x)) as [cfg [e|]] eqn:Hdec.
  - left. exists cfg, e. split; [reflexivity |].
    unfold Init in Hret. rewrite Hdec in Hret. simpl in Hret. congruence.
  - right.
    destruct (sql_Open (DbType (defaulted cfg)) (Dsn (defaulted cfg)))
      as [e|d] eqn:Hopen.
    + left. exists cfg, e. split; [done | split; [done |]].
      unfold Init in Hret. rewrite Hdec in Hret. fold (defaulted cfg) in Hret.
      rewrite Hopen in Hret. simpl in Hret. congruence.
    + right. destruct (strings.Fields (Sql cfg)) as [|word0 words] eqn:Hwords.
      * unfold Init in Hret. rewrite Hdec in Hret. fold (defaulted cfg) in Hret.
        rewrite Hopen, Sql_defaulted, Hwords in Hret. discriminate.
      * by exists cfg, d, word0, words.
Qed.

End NodeFacts.

Section NodeReadyFacts.
Import action types.
Context `{GoRuntime}.
Variable Map2Struct :
  gmap string GoValue -> DbClientNodeConfiguration ->
  DbClientNodeConfiguration * option GoError.
Variable sql_Open : string -> string -> GoError + sql.DB.

Lemma OnMsg_returns_with_db (ords : nat -> MapOrder) (x : DbClientNode)
    (msg : RuleMsg) (d : sql.DB) :
  db x = Some d -> exists calls err, OnMsg ords x msg = Ret (calls, err).
Proof.
  intros Hdb. rewrite OnMsg_unfold.
  pose proof (run_op_cases x (sent_sql ords x msg) (sent_params ords x msg)) as Hop.
  pose proof (run_op_data x (sent_sql ords x msg) (sent_params ords x msg))
    as Hdata.
  destruct (run_op x (sent_sql ords x msg) (sent_params ords x msg))
    as [[[[data rowsAffected] lastInsertId] [e|]]|r|]; try by eauto.
  - destruct (Hdata data rowsAffected lastInsertId None eq_refl) as [printed ->].
    repeat case_bool_decide; simpl; eauto.
  - destruct Hop as [Hnone _]. congruence.
Qed.

Lemma DbType_defaulted (cfg : DbClientNodeConfiguration) :
  DbType (defaulted cfg) <> "".
Proof. unfold defaulted. case_bool_decide; [discriminate | assumption]. Qed.

(** When [Init] returns nil the node is ready: its handle is open and
    answered the ping, its [opType] is one of the four, its [DbType] is
    not empty, its statement holds no question mark if the type is
    "postgres", and [OnMsg] returns for every message, without panic. *)
Theorem Init_nil_node_ready (x : DbClientNode) (bag : gmap string GoValue) :
  snd (Init Map2Struct sql_Open x bag) = Ret None ->
  let x' := fst (Init Map2Struct sql_Open x bag) in
  (exists d, db x' = Some d /\ sql.Ping d = None)
  /\ supported (opType x') = true
  /\ DbType (config x') <> ""
  /\ (DbType (config x') = "postgres" -> count_byte "?" (Sql (config x')) = O)
  /\ forall ords msg, exists calls err, OnMsg ords x' msg = Ret (calls, err).
Proof.
  intros Hret.
  destruct (Init_returns_inv Map2Struct sql_Open x bag None Hret)
    as [(cfg & e & _ & ?)|[(cfg & e & _ & _ & ?)|(cfg & d & word0 & words & Hdec & Hopen & Hwords)]];
    try discriminate.
  rewrite (Init_opened Map2Struct sql_Open x bag cfg d word0 words Hdec Hopen Hwords)
    in *.
  cbn [fst snd] in *.
  destruct (supported (ToUpper word0)) eqn:Hop; [| discriminate].
  injection Hret as Hping.
  split; [by exists d |]. split; [exact Hop |].
  split; [apply DbType_defaulted |]. split.
  - cbn [config set_Sql DbType Sql]. intros Hpg.
    rewrite bool_decide_true by exact Hpg.
    by destruct (dollar_wrapping_counts (Sql cfg) 1).
  - intros ords msg. by eapply OnMsg_returns_with_db.
Qed.

(** Substituting into a parameter without variable changes nothing. *)
Lemma params_without_var (ords : nat -> MapOrder) (md : gmap string GoValue)
    (params : list GoValue) :
  existsb has_var params = false ->
  imap (fun i item =>
          match item with
          | VString v => VString (str.SprintfDict (ords (S i)) v md)
          | _ => item
          end) params = params.
Proof.
  intros Hnone. apply list_eq. intros i. rewrite list_lookup_imap.
  destruct (params !! i) as [item|] eqn:Hi; [| reflexivity]. simpl.
  destruct item; try reflexivity.
  unfold str.SprintfDict.
  rewrite fold_ProcessVar_absent; [reflexivity |].
  intros key val _. apply CheckHasVar_false_absent.
  apply list_elem_of_lookup_2 in Hi.
  destruct (str.CheckHasVar v) eqn:Hv; [| reflexivity].
  assert (existsb has_var params = true) as Htrue; [| congruence].
  apply existsb_exists. exists (VString v). split; [| exact Hv].
  by apply list_elem_of_In.
Qed.

(** The flag [paramsHasVar] is a shortcut only: a node whose parameters
    hold no variable behaves the same with the flag set or not. *)
Lemma OnMsg_flag_irrelevant (ords : nat -> MapOrder) (x : DbClientNode)
    (msg : RuleMsg) (b : bool) :
  existsb has_var (Params (config x)) = false ->
  OnMsg ords (set_paramsHasVar b x) msg = OnMsg ords x msg.
Proof.
  intros Hnone.
  assert (forall y, config y = config x ->
            sent_params ords y msg = Params (config x)) as Hparams.
  { intros y Hy. unfold sent_params. rewrite Hy.
    destruct (paramsHasVar y); [by apply params_without_var | reflexivity]. }
  rewrite !OnMsg_unfold.
  rewrite (Hparams x eq_refl), (Hparams (set_paramsHasVar b x) eq_refl).
  reflexivity.
Qed.

(** Once [Init] has returned nil, [OnMsg] substitutes the variables of
    every string parameter: it behaves exactly as it would with
    [paramsHasVar] set, whether or not [Init] has set it. *)
Theorem OnMsg_after_Init_substitutes (x : DbClientNode)
    (bag : gmap string GoValue) (ords : nat -> MapOrder) (msg : RuleMsg) :
  snd (Init Map2Struct sql_Open x bag) = Ret None ->
  let x' := fst (Init Map2Struct sql_Open x bag) in
  OnMsg ords x' msg = OnMsg ords (set_paramsHasVar true x') msg.
Proof.
  intros Hret x'. unfold x'.
  destruct (Init_returns_inv Map2Struct sql_Open x bag None Hret)
    as [(cfg & e & _ & ?)|[(cfg & e & _ & _ & ?)|(cfg & d & word0 & words & Hdec & Hopen & Hwords)]];
    try discriminate.
  rewrite (Init_opened Map2Struct sql_Open x bag cfg d word0 words Hdec Hopen Hwords).
  cbn [fst].
  destruct (existsb has_var (Params (defaulted cfg))) eqn:Hvar.
  - rewrite orb_true_r. reflexivity.
  - symmetry. apply OnMsg_flag_irrelevant. exact Hvar.
Qed.

End NodeReadyFacts.

(** ** OnMsg on the answers of the database *)
Section OnMsgAnswerFacts.
Import action types.
Context `{GoRuntime}.

(** An UPDATE or DELETE that the database carries out puts the number of
    rows affected, in decimal, under "rowsAffected" in the metadata of
    the message and tells success; nothing else of the message changes. *)
Theorem OnMsg_update_delete_success (ords : nat -> MapOrder)
    (x : DbClientNode) (msg : RuleMsg) (d : sql.DB) (result : sql.Result)
    (n : Z) :
  db x = Some d ->
  opType x = UPDATE \/ opType x = DELETE ->
  sql.Exec d (sent_sql ords x msg) (sent_params ords x msg) = inr result ->
  sql.RowsAffected result = (n, None) ->
  exists msg',
    OnMsg ords x msg = Ret ([TellSuccess msg'], None)
    /\ Metadata msg' = <[rowsAffectedKey := VString (strconv.FormatInt10 n)]> (Metadata msg)
    /\ Data msg' = Data msg /\ Id msg' = Id msg /\ MsgType msg' = MsgType msg.
Proof.
  intros Hdb Hop Hexec Hrows.
  exists (PutValue rowsAffectedKey (strconv.FormatInt10 n) msg).
  split; [| by repeat split].
  rewrite OnMsg_unfold. unfold run_op, update, delete, on_db.
  rewrite Hdb, Hexec, Hrows.
  destruct Hop as [Hop|Hop]; rewrite Hop;
    repeat (rewrite bool_decide_false by discriminate);
    repeat (rewrite bool_decide_true by reflexivity); reflexivity.
Qed.

(** An INSERT that the database carries out puts the rows affected and
    the last inserted id into the metadata; an error of [LastInsertId] is
    dropped and the id it came with is used. *)
Theorem OnMsg_insert_success (ords : nat -> MapOrder)
    (x : DbClientNode) (msg : RuleMsg) (d : sql.DB) (result : sql.Result)
    (n : Z) :
  db x = Some d ->
  opType x = INSERT ->
  sql.Exec d (sent_sql ords x msg) (sent_params ords x msg) = inr result ->
  sql.RowsAffected result = (n, None) ->
  exists msg',
    OnMsg ords x msg = Ret ([TellSuccess msg'], None)
    /\ Metadata msg'
       = <[lastInsertIdKey := VString (strconv.FormatInt10 (fst (sql.LastInsertId result)))]>
           (<[rowsAffectedKey := VString (strconv.FormatInt10 n)]> (Metadata msg))
    /\ Data msg' = Data msg.
Proof.
  intros Hdb Hop Hexec Hrows.
  exists (PutValue lastInsertIdKey
            (strconv.FormatInt10 (fst (sql.LastInsertId result)))
            (PutValue rowsAffectedKey (strconv.FormatInt10 n) msg)).
  split; [| by split].
  rewrite OnMsg_unfold. unfold run_op, insert, on_db.
  rewrite Hdb, Hexec, Hrows, Hop.
  repeat (rewrite bool_decide_false by discriminate).
  repeat (rewrite bool_decide_true by reflexivity). reflexivity.
Qed.

(** A statement that the database refuses fails the message as it came
    in, with the error of the database, which [OnMsg] also returns. *)
Theorem OnMsg_exec_refused (ords : nat -> MapOrder)
    (x : DbClientNode) (msg : RuleMsg) (d : sql.DB) (e : GoError) :
  db x = Some d ->
  opType x = UPDATE \/ opType x = INSERT \/ opType x = DELETE ->
  sql.Exec d (sent_sql ords x msg) (sent_params ords x msg) = inl e ->
  OnMsg ords x msg = Ret ([TellFailure msg (Some e)], Some e).
Proof.
  intros Hdb Hop Hexec.
  rewrite OnMsg_unfold. unfold run_op, update, insert, delete, on_db.
  rewrite Hdb, Hexec.
  destruct Hop as [Hop|[Hop|Hop]]; rewrite Hop;
    repeat (rewrite bool_decide_false by discriminate);
    repeat (rewrite bool_decide_true by reflexivity); reflexivity.
Qed.

(** A SELECT with [GetOne] that finds no row succeeds, with an empty
    [Data]. *)
Theorem OnMsg_select_one_no_row (ords : nat -> MapOrder)
    (x : DbClientNode) (msg : RuleMsg) (d : sql.DB) (rows : sql.Rows)
    (columns : list string) :
  db x = Some d ->
  opType x = SELECT ->
  GetOne (config x) = true ->
  sql.Query d (sent_sql ords x msg) (sent_params ords x msg) = inr rows ->
  sql.Columns rows = inr columns ->
  sql.scans rows = [] ->
  sql.Rows_Err rows = None ->
  OnMsg ords x msg = Ret ([TellSuccess (set_Data "" msg)], None).
Proof.
  intros Hdb Hop Hone Hquery Hcols Hscans Herr.
  rewrite OnMsg_unfold. unfold run_op, query, on_db.
  rewrite Hdb, Hquery, Hcols, Hscans, Herr, Hone, Hop.
  repeat (rewrite bool_decide_true by reflexivity). reflexivity.
Qed.

End OnMsgAnswerFacts.

(** ** query: what the rows of the result show *)
Section QueryFacts.
Import action types.
Context `{GoRuntime}.

Lemma scan_loop_no_bytes (row : gmap string nat) (vss : list (list GoValue))
    (values : list GoValue) (result : list (gmap string (string + nat))) :
  (forall vs v, vs ∈ vss -> v ∈ vs -> is_bytes v = false) ->
  scan_loop row (inr <$> vss) values result
  = inr (default values (last vss),
         result ++ replicate (length vss) (inr <$> row)).
Proof.
  revert values result. induction vss as [|vs vss IH]; intros values result Hno.
  - simpl. by rewrite app_nil_r.
  - rewrite fmap_cons. cbn [scan_loop].
    assert ((fun i : nat =>
               match vs !! i with
               | Some (VBytes b) => inl b
               | _ => inr i
               end) <$> row = inr <$> row) as ->.
    { apply map_fmap_ext. intros k i _.
      destruct (vs !! i) as [v|] eqn:Hv; [| reflexivity].
      apply list_elem_of_lookup_2 in Hv.
      pose proof (Hno vs v (list_elem_of_here _ _) Hv) as Hb.
      by destruct v. }
    rewrite IH by (intros vs' v Hvs Hv; eapply Hno; [by right | exact Hv]).
    f_equal. f_equal.
    + rewrite last_cons. by destruct (last vss).
    + rewrite <- app_assoc. reflexivity.
Qed.

(** When the driver delivers no byte slice, every row of the result
    holds, for each column, the pointer to the one variable the column is
    scanned into: all rows are equal and show the values of the last
    row read. *)
Theorem query_rows_show_last_row (x : DbClientNode) (d : sql.DB)
    (sqlStr : string) (params : list GoValue) (rows : sql.Rows)
    (columns : list string) (vss : list (list GoValue)) :
  db x = Some d ->
  sql.Query d sqlStr params = inr rows ->
  sql.Columns rows = inr columns ->
  sql.scans rows = inr <$> vss ->
  sql.Rows_Err rows = None ->
  (forall vs v, vs ∈ vss -> v ∈ vs -> is_bytes v = false) ->
  let final := default (replicate (length columns) VNil) (last vss) in
  query x sqlStr params false
  = Ret (VMaps (replicate (length vss)
                  ((fun i => VPointer (default VNil (final !! i)))
                     <$> row_of columns)), None).
Proof.
  intros Hdb Hquery Hcols Hscans Herr Hno final.
  unfold query, on_db. rewrite Hdb, Hquery, Hcols, Hscans.
  rewrite scan_loop_no_bytes by exact Hno.
  rewrite Herr. cbn [app]. rewrite fmap_replicate.
  unfold read_row. rewrite <- map_fmap_compose. reflexivity.
Qed.

Lemma scan_loop_error (row : gmap string nat) (vss : list (list GoValue))
    (e : GoError) (rest : list (GoError + list GoValue))
    (values : list GoValue) (result : list (gmap string (string + nat))) :
  scan_loop row ((inr <$> vss) ++ inl e :: rest) values result = inl e.
Proof.
  revert values result. induction vss as [|vs vss IH]; intros values result.
  - reflexivity.
  - rewrite fmap_cons. cbn [app scan_loop]. apply IH.
Qed.

Lemma scan_loop_no_error (row : gmap string nat) (vss : list (list GoValue))
    (values : list GoValue) (result : list (gmap string (string + nat))) :
  exists read, scan_loop row (inr <$> vss) values result = inr read.
Proof.
  revert values result. induction vss as [|vs vss IH]; intros values result.
  - by eexists.
  - rewrite fmap_cons. cbn [scan_loop]. apply IH.
Qed.

(** An error of [Scan] at any row, or of [Err] after the last, makes
    [query] return nil and that error: the rows read before are dropped. *)
Theorem query_error_drops_rows (x : DbClientNode) (d : sql.DB)
    (sqlStr : string) (params : list GoValue) (getOne : bool)
    (rows : sql.Rows) (columns : list string) (vss : list (list GoValue))
    (e : GoError) :
  db x = Some d ->
  sql.Query d sqlStr params = inr rows ->
  sql.Columns rows = inr columns ->
  (exists rest, sql.scans rows = (inr <$> vss) ++ inl e :: rest)
  \/ (sql.scans rows = inr <$> vss /\ sql.Rows_Err rows = Some e) ->
  query x sqlStr params getOne = Ret (VNil, Some e).
Proof.
  intros Hdb Hquery Hcols [[rest Hscans]|[Hscans Herr]];
    unfold query, on_db; rewrite Hdb, Hquery, Hcols, Hscans.
  - by rewrite scan_loop_error.
  - destruct (scan_loop_no_error (row_of columns) vss
                (replicate (length columns) VNil) []) as [[values result] ->].
    by rewrite Herr.
Qed.

End QueryFacts.

(** ** query on a driver that delivers byte slices *)
Section QueryBytesFacts.
Import action types.
Context `{GoRuntime}.

Lemma row_of_snoc (columns : list string) (c : string) :
  row_of (columns ++ [c]) = <[c := length columns]> (row_of columns).
Proof.
  unfold row_of. rewrite imap_app, fold_left_app. simpl.
  by rewrite Nat.add_0_r.
Qed.

(** A column name points to a variable of its own column. *)
Lemma row_of_lookup (columns : list string) (k : string) (i : nat) :
  row_of columns !! k = Some i -> columns !! i = Some k.
Proof.
  revert i. induction columns as [|c columns IH] using rev_ind; intros i.
  - unfold row_of. simpl. by rewrite lookup_empty.
  - rewrite row_of_snoc. destruct (decide (k = c)) as [->|Hne].
    + rewrite lookup_insert_eq. intros [= <-].
      by rewrite lookup_app_r, Nat.sub_diag by lia.
    + rewrite lookup_insert_ne by congruence. intros Hi%IH.
      by apply lookup_app_l_Some.
Qed.

Lemma scan_row_bytes (columns : list string) (bs : list string) :
  length bs = length columns ->
  (fun i : nat =>
     match (VBytes <$> bs) !! i return string + nat with
     | Some (VBytes b) => inl b
     | _ => inr i
     end) <$> row_of columns
  = (fun i : nat => inl (default "" (bs !! i))) <$> row_of columns.
Proof.
  intros Hlen. apply map_fmap_ext. intros k i Hk%row_of_lookup.
  apply lookup_lt_Some in Hk. rewrite <- Hlen in Hk.
  apply lookup_lt_is_Some in Hk as [b Hb].
  by rewrite list_lookup_fmap, Hb.
Qed.

Lemma scan_loop_bytes (columns : list string) (bss : list (list string))
    (values : list GoValue) (result : list (gmap string (string + nat))) :
  (forall bs, bs ∈ bss -> length bs = length columns) ->
  exists final,
    scan_loop (row_of columns)
      (inr <$> ((fun bs : list string => VBytes <$> bs) <$> bss)) values result
    = inr (final,
           result ++
           ((fun bs : list string =>
               (fun i : nat => inl (default "" (bs !! i))) <$> row_of columns)
              <$> bss)).
Proof.
  revert values result. induction bss as [|bs bss IH]; intros values result Hlen.
  - exists values. simpl. by rewrite app_nil_r.
  - rewrite !fmap_cons. cbn [scan_loop].
    rewrite scan_row_bytes by (apply Hlen; by left).
    destruct (IH (VBytes <$> bs)
                 (result ++ [(fun i : nat => inl (default "" (bs !! i)))
                               <$> row_of columns]))
      as [final ->]; [intros bs' Hbs'; apply Hlen; by right |].
    exists final. by rewrite <- app_assoc.
Qed.

(** When the driver delivers every value as a byte slice, every row of
    the result holds its own values, copied as strings; with [getOne]
    the result is the first row, or nil when there is none. *)
Theorem query_bytes_rows (x : DbClientNode) (d : sql.DB)
    (sqlStr : string) (params : list GoValue) (getOne : bool)
    (rows : sql.Rows) (columns : list string) (bss : list (list string)) :
  db x = Some d ->
  sql.Query d sqlStr params = inr rows ->
  sql.Columns rows = inr columns ->
  sql.scans rows = inr <$> ((fun bs : list string => VBytes <$> bs) <$> bss) ->
  sql.Rows_Err rows = None ->
  (forall bs, bs ∈ bss -> length bs = length columns) ->
  let result :=
    (fun bs : list string =>
       (fun i : nat => VString (default "" (bs !! i))) <$> row_of columns)
      <$> bss in
  query x sqlStr params getOne
  = Ret (if getOne then match result with
                        | m :: _ => VMap m
                        | [] => VNil
                        end
         else VMaps result, None).
Proof.
  intros Hdb Hquery Hcols Hscans Herr Hlen result.
  unfold query, on_db. rewrite Hdb, Hquery, Hcols, Hscans.
  destruct (scan_loop_bytes columns bss (replicate (length columns) VNil) [] Hlen)
    as [final ->].
  rewrite Herr. cbn [app].
  assert (read_row final <$>
            ((fun bs : list string =>
                (fun i : nat => inl (default "" (bs !! i))) <$> row_of columns)
               <$> bss) = result) as ->.
  { unfold result. rewrite <- list_fmap_compose. apply list_fmap_ext.
    intros _ bs _. simpl. unfold read_row. by rewrite <- map_fmap_compose. }
  clearbody result. destruct getOne; [| reflexivity]. by destruct result.
Qed.

End QueryBytesFacts.

(** ** The properties on the examples *)

Lemma SprintfDict_keys_absent_witness :
  str.SprintfDict (H:=example.runtime) example.forwards "Hello, ${name}!"
    ({["age" := VInt 5]} : gmap string GoValue)
  = "Hello, ${name}!".
Proof.
  apply (SprintfDict_keys_absent (H:=example.runtime)).
  intros key val Hin. unfold example.forwards in Hin.
  rewrite map_to_list_singleton in Hin.
  apply list_elem_of_singleton in Hin. injection Hin as -> ->.
  vm_compute. reflexivity.
Defined.

Lemma SprintfDict_without_var_witness :
  str.SprintfDict (H:=example.runtime) example.backwards "select 1" example.nested
  = "select 1".
Proof.
  apply (SprintfDict_without_var (H:=example.runtime)). reflexivity.
Defined.

Lemma Init_unsupported_returns_error_witness :
  snd (action.Init (H:=example.runtime) example.Map2Struct example.sql_Open
                   action.New example.drop_bag)
  = Ret (Some (fmt.Errorf_unsupported "drop table users")).
Proof.
  apply (Init_unsupported_returns_error (H:=example.runtime) example.Map2Struct
           example.sql_Open action.New example.drop_bag
           (fst (example.Map2Struct example.drop_bag (action.config action.New)))
           example.down "drop" ["table"; "users"]); reflexivity.
Defined.

Lemma Init_supported_returns_ping_witness :
  snd (action.Init (H:=example.runtime) example.Map2Struct example.sql_Open
                   action.New example.select_bag) = Ret None
  /\ action.db (fst (action.Init (H:=example.runtime) example.Map2Struct
                       example.sql_Open action.New example.select_bag))
     = Some example.down
  /\ action.opType (fst (action.Init (H:=example.runtime) example.Map2Struct
                           example.sql_Open action.New example.select_bag))
     = "SELECT".
Proof.
  apply (Init_supported_returns_ping (H:=example.runtime) example.Map2Struct
           example.sql_Open action.New example.select_bag
           (fst (example.Map2Struct example.select_bag (action.config action.New)))
           example.down "select" ["*"; "from"; "users"]); reflexivity.
Defined.

Lemma Init_nil_node_ready_witness :
  action.supported
    (action.opType (fst (action.Init (H:=example.runtime) example.Map2Struct
                           example.sql_Open action.New example.select_bag)))
  = true
  /\ forall (ords : nat -> MapOrder) (msg : types.RuleMsg),
       exists calls err,
         action.OnMsg (H:=example.runtime) ords
           (fst (action.Init (H:=example.runtime) example.Map2Struct
                   example.sql_Open action.New example.select_bag)) msg
         = Ret (calls, err).
Proof.
  destruct (Init_nil_node_ready (H:=example.runtime) example.Map2Struct
              example.sql_Open action.New example.select_bag)
    as (_ & Hop & _ & _ & Hret); [reflexivity |].
  split; [exact Hop | exact Hret].
Defined.

Lemma OnMsg_after_Init_substitutes_witness :
  action.OnMsg (H:=example.runtime) (fun _ => example.forwards)
    (fst (action.Init (H:=example.runtime) example.Map2Struct
            example.sql_Open action.New example.select_bag)) example.hello
  = action.OnMsg (H:=example.runtime) (fun _ => example.forwards)
      (action.set_paramsHasVar true
         (fst (action.Init (H:=example.runtime) example.Map2Struct
                 example.sql_Open action.New example.select_bag))) example.hello.
Proof.
  apply (OnMsg_after_Init_substitutes (H:=example.runtime) example.Map2Struct
           example.sql_Open action.New example.select_bag).
  reflexivity.
Defined.

Lemma OnMsg_unsupported_witness :
  action.OnMsg (H:=example.runtime) (fun _ => example.forwards) action.New
    example.hello
  = Ret ([action.TellFailure example.hello
            (Some (fmt.Errorf_unsupported ""))],
         Some (fmt.Errorf_unsupported "")).
Proof.
  apply (OnMsg_unsupported (H:=example.runtime) (fun _ => example.forwards)
           action.New example.hello).
  reflexivity.
Defined.

Lemma OnMsg_update_delete_success_witness :
  exists msg',
    action.OnMsg (H:=example.runtime) (fun _ => example.forwards)
      example.updating example.hello
    = Ret ([action.TellSuccess msg'], None)
    /\ types.Metadata msg' = <["rowsAffected" := VString "3"]> ∅
    /\ types.Data msg' = "{}".
Proof.
  destruct (OnMsg_update_delete_success (H:=example.runtime)
              (fun _ => example.forwards) example.updating example.hello
              example.up example.three_rows 3)
    as (msg' & Hret & Hmd & Hdata & _);
    [reflexivity | left; reflexivity | reflexivity | reflexivity |].
  exists msg'. split; [exact Hret |]. split; [exact Hmd | exact Hdata].
Defined.

Lemma OnMsg_insert_success_witness :
  exists msg',
    action.OnMsg (H:=example.runtime) (fun _ => example.forwards)
      example.inserting example.hello
    = Ret ([action.TellSuccess msg'], None)
    /\ types.Metadata msg'
       = <["lastInsertId" := VString "7"]> (<["rowsAffected" := VString "3"]> ∅).
Proof.
  destruct (OnMsg_insert_success (H:=example.runtime)
              (fun _ => example.forwards) example.inserting example.hello
              example.up example.three_rows 3)
    as (msg' & Hret & Hmd & _); try reflexivity.
  exists msg'. split; [exact Hret | exact Hmd].
Defined.

Lemma OnMsg_exec_refused_witness :
  action.OnMsg (H:=example.runtime) (fun _ => example.forwards)
    example.refusing example.hello
  = Ret ([action.TellFailure example.hello (Some example.refused)],
         Some example.refused).
Proof.
  apply (OnMsg_exec_refused (H:=example.runtime) (fun _ => example.forwards)
           example.refusing example.hello example.down example.refused);
    [reflexivity | left; reflexivity | reflexivity].
Defined.

Lemma OnMsg_select_one_no_row_witness :
  action.OnMsg (H:=example.runtime) (fun _ => example.forwards)
    (example.on_database example.no_row true) example.hello
  = Ret ([action.TellSuccess (types.set_Data "" example.hello)], None).
Proof.
  apply (OnMsg_select_one_no_row (H:=example.runtime) (fun _ => example.forwards)
           (example.on_database example.no_row true) example.hello
           example.no_row
           {| sql.Columns := inr ["id"; "name"]; sql.scans := [];
              sql.Rows_Err := None |}
           ["id"; "name"]); reflexivity.
Defined.

Lemma query_rows_show_last_row_witness :
  action.query example.selecting "select id, name from users" [] false
  = Ret (VMaps (replicate 2
                  ((fun i => VPointer (default VNil ([VInt64 2; VString "bob"] !! i)))
                     <$> action.row_of ["id"; "name"])), None).
Proof.
  apply (query_rows_show_last_row example.selecting example.up
           "select id, name from users" [] example.two_users ["id"; "name"]
           [[VInt64 1; VString "ann"]; [VInt64 2; VString "bob"]]);
    try reflexivity.
  intros vs v Hvs Hv. set_unfold in Hvs.
  destruct Hvs as [->|[->|[]]]; set_unfold in Hv;
    destruct Hv as [->|[->|[]]]; reflexivity.
Defined.

Lemma query_error_drops_rows_witness :
  action.query (example.on_database example.broken false)
    "select id, name from users" [] false
  = Ret (VNil, Some (Err "sql: Scan error")).
Proof.
  apply (query_error_drops_rows (example.on_database example.broken false)
           example.broken "select id, name from users" [] false
           example.broken_rows ["id"; "name"] [[VInt64 1; VString "ann"]]);
    try reflexivity.
  left. exists []. reflexivity.
Defined.

Lemma query_bytes_rows_witness :
  action.query (example.on_database example.text false)
    "select id, name from users" [] false
  = Ret (VMaps
           ((fun bs : list string =>
               (fun i : nat => VString (default "" (bs !! i)))
                 <$> action.row_of ["id"; "name"])
              <$> [["1"; "ann"]; ["2"; "bob"]]), None).
Proof.
  apply (query_bytes_rows (example.on_database example.text false)
           example.text "select id, name from users" [] false
           example.text_rows ["id"; "name"] [["1"; "ann"]; ["2"; "bob"]]);
    try reflexivity.
  intros bs Hbs. set_unfold in Hbs.
  destruct Hbs as [->|[->|[]]]; reflexivity.
Defined.
